(** * yolo.py: box geometry, target assignment, loss aggregation and
    non-maximum suppression

    A shallow embedding of the algorithmic core of [src/yolo.py]:
    [xywh_to_xyxy], [bbox_iou], the target-assignment loop and the loss
    terms of [YOLOLoss.forward], and [non_max_suppression].

    Numbers.  Tensor entries are idealised as exact rationals ([Q]); the
    rounding of the float32 arithmetic of the host library is not modelled.
    Two rationals are compared with [==] ([Qeq]).

    Tensors.  A tensor is a nested list, outermost dimension first.  The
    shape a function reads from [preds.shape] is passed next to the data.
    Indexing follows the host library: an index [k] into a dimension of
    size [n] is valid when [-n <= k < n], a negative one counting from the
    end, and anything else raises.

    Failure.  Code that can raise returns a [result]. *)

From Stdlib Require Import QArith Qminmax Lqa ZArith List Lia Bool.
From stdpp Require Import base list.
From Equations Require Import Equations.
Import ListNotations.

(* ===================================================================== *)
(** * Failure and the error monad *)
(* ===================================================================== *)

(** What can go wrong in the modelled code, named by cause: an index
    outside a tensor dimension, a reduction ([max], [argmax]) over no
    element, and operands whose shapes do not fit together. *)
Inductive failure : Type :=
| OutOfBounds
| EmptyReduction
| ShapeMismatch.

Definition result (A : Type) : Type := (failure + A)%type.

Definition ok {A} (a : A) : result A := inr a.
Definition raise {A} (e : failure) : result A := inl e.

Definition bind {A B} (m : result A) (k : A -> result B) : result B :=
  match m with
  | inl e => inl e
  | inr a => k a
  end.

Notation "'let*' x := m 'in' k" := (bind m (fun x => k))
  (at level 10, x name, m at level 200, k at level 200).

(** [traverse f l] runs [f] on every element, left to right, and stops at
    the first failure: the elementwise reading of a vectorised call. *)
Fixpoint traverse {A B} (f : A -> result B) (l : list A) : result (list B) :=
  match l with
  | [] => ok []
  | x :: xs => let* y := f x in let* ys := traverse f xs in ok (y :: ys)
  end.

(* ===================================================================== *)
(** * 1. Geometry *)
(* ===================================================================== *)

Module Geometry.

Local Open Scope Q_scope.

(** A box is the last dimension of a box tensor: a list of coordinates. *)
Abbreviation box := (list Q) (only parsing).

(** [eps=1e-7], the default of [bbox_iou]. *)
Definition eps_default : Q := 1 # 10000000.

(** [v.clamp(min=lo)] *)
Definition clamp_min (lo v : Q) : Q := if Qlt_le_dec v lo then lo else v.

(** [xywh_to_xyxy]: reads [box[..., 0]] to [box[..., 3]] and stacks the
    four corners. *)
Definition xywh_to_xyxy (b : box) : result box :=
  match b with
  | x :: y :: w :: h :: _ =>
      ok [x - w / 2; y - h / 2; x + w / 2; y + h / 2]
  | _ => raise OutOfBounds
  end.

(** The extent of the intersection along one axis, from the two intervals
    [(lo1, hi1)] and [(lo2, hi2)]: [(min(hi) - max(lo)).clamp(min=0)]. *)
Definition overlap (lo1 hi1 lo2 hi2 : Q) : Q :=
  clamp_min 0 (Qmin hi1 hi2 - Qmax lo1 lo2).

(** Lines 103-116 of [bbox_iou], on the two boxes after the conversion
    step: the intersection rectangle, the two clamped areas, the union
    with [eps] added, and the quotient. *)
Definition inter_area (b1 b2 : box) : result Q :=
  match b1, b2 with
  | a0 :: a1 :: a2 :: a3 :: _, c0 :: c1 :: c2 :: c3 :: _ =>
      let inter_w := overlap a0 a2 c0 c2 in
      let inter_h := overlap a1 a3 c1 c3 in
      ok (inter_w * inter_h)
  | _, _ => raise OutOfBounds
  end.

Definition box_area (b : box) : result Q :=
  match b with
  | a0 :: a1 :: a2 :: a3 :: _ =>
      ok (clamp_min 0 (a2 - a0) * clamp_min 0 (a3 - a1))
  | _ => raise OutOfBounds
  end.

Definition iou_xyxy (eps : Q) (b1 b2 : box) : result Q :=
  let* inter := inter_area b1 b2 in
  let* area1 := box_area b1 in
  let* area2 := box_area b2 in
  let union := area1 + area2 - inter + eps in
  ok (inter / union).

(** The conversion step of [bbox_iou]: [if box.shape[-1] == 4: box =
    xywh_to_xyxy(box)].  The test looks at the size of the last
    dimension only. *)
Definition to_xyxy_if_4 (b : box) : result box :=
  if Nat.eqb (length b) 4 then xywh_to_xyxy b else ok b.

(** [bbox_iou(box1, box2, eps)] on one pair of boxes. *)
Definition bbox_iou (eps : Q) (box1 box2 : box) : result Q :=
  let* b1 := to_xyxy_if_4 box1 in
  let* b2 := to_xyxy_if_4 box2 in
  iou_xyxy eps b1 b2.

(** [bbox_iou] on two stacks of boxes of the same length, one IoU per
    pair (the shapes the callers pass: [(n,4)] against [(n,4)]). *)
Definition bbox_iou_rows (eps : Q) (boxes1 boxes2 : list box) : result (list Q) :=
  if Nat.eqb (length boxes1) (length boxes2)
  then traverse (fun p => bbox_iou eps (fst p) (snd p)) (combine boxes1 boxes2)
  else raise ShapeMismatch.

(** The IoU of one pair, 0 standing for a failure (there is none on
    boxes of four coordinates). *)
Definition iou_or_0 (p : box * box) : Q :=
  match bbox_iou eps_default (fst p) (snd p) with
  | inr v => v
  | inl _ => 0
  end.

(** The spec's reading of [iou] (section 4.1), kept apart from the code's
    [bbox_iou] to compare the two: the value the spec gives for two boxes
    already in corner form
    [(x1, y1, x2, y2)], with no conversion applied:
    [intersection / (area(A) + area(B) - intersection + epsilon)]. *)
Definition spec_iou_corner (eps : Q) (a b : Q * Q * Q * Q) : Q :=
  let '(ax1, ay1, ax2, ay2) := a in
  let '(bx1, by1, bx2, by2) := b in
  let inter := Qmax 0 (Qmin ax2 bx2 - Qmax ax1 bx1)
               * Qmax 0 (Qmin ay2 by2 - Qmax ay1 by1) in
  let area_a := (ax2 - ax1) * (ay2 - ay1) in
  let area_b := (bx2 - bx1) * (by2 - by1) in
  inter / (area_a + area_b - inter + eps).

End Geometry.

(* ===================================================================== *)
(** * 2. Tensors as nested lists *)
(* ===================================================================== *)

Module Tensor.

(** The position an index [k] denotes in a dimension of size [n]:
    [0 <= k < n] is itself, [-n <= k < 0] counts from the end, anything
    else is out of bounds. *)
Definition norm_index (n : nat) (k : Z) : option nat :=
  if ((0 <=? k) && (k <? Z.of_nat n))%Z then Some (Z.to_nat k)
  else if ((- Z.of_nat n <=? k) && (k <? 0))%Z
       then Some (Z.to_nat (k + Z.of_nat n))
       else None.

(** One level of an indexed write [t[k, ...] = ...]: the element at [k]
    is replaced by what [f] makes of it. *)
Definition upd {A} (k : Z) (f : A -> result A) (l : list A) : result (list A) :=
  match norm_index (length l) k with
  | None => raise OutOfBounds
  | Some n =>
      match l !! n with
      | None => raise OutOfBounds
      | Some x => let* x' := f x in ok (<[n := x']> l)
      end
  end.

(** The five-dimensional tensors of [YOLOLoss.forward]:
    [(B, A, gh, gw, 5 + C)]. *)
Abbreviation row := (list Q) (only parsing).
Abbreviation tensor5 := (list (list (list (list (list Q))))) (only parsing).

(** [torch.zeros((B, A, gh, gw, nc))] *)
Definition zeros5 (B A gh gw nc : nat) : tensor5 :=
  replicate B (replicate A (replicate gh (replicate gw (replicate nc 0%Q)))).

(** [t[b, n, j, i, c] = v] *)
Definition set5 (t : tensor5) (b n j i c : Z) (v : Q) : result tensor5 :=
  upd b (upd n (upd j (upd i (upd c (fun _ => ok v))))) t.

(** Reading [t[b, n, j, i, c]] at a position inside the tensor. *)
Definition get5 (t : tensor5) (b n j i c : nat) : option Q :=
  match t !! b with
  | Some t4 =>
      match t4 !! n with
      | Some t3 =>
          match t3 !! j with
          | Some t2 =>
              match t2 !! i with
              | Some r => r !! c
              | None => None
              end
          | None => None
          end
      | None => None
      end
  | None => None
  end.

(** Reading channel [c] of a row, [r[c]] with [c >= 0]. *)
Definition channel (r : row) (c : nat) : result Q :=
  match r !! c with
  | Some v => ok v
  | None => raise OutOfBounds
  end.

(** A dimension of size [n] whose entries all satisfy [P], and with it
    the shape [(B, A, gh, gw, nc)] of a tensor. *)
Definition sized {A} (n : nat) (P : A -> Prop) (l : list A) : Prop :=
  length l = n /\ Forall P l.

Definition shaped5 (B A gh gw nc : nat) (t : tensor5) : Prop :=
  sized B (sized A (sized gh (sized gw (fun r : row => length r = nc)))) t.

(** A row whose objectness channel (index 4) holds 0 or 1, and a tensor
    made of such rows. *)
Definition row01 (r : row) : Prop := r !! 4 = Some 0%Q \/ r !! 4 = Some 1%Q.

Definition obj01 (t : tensor5) : Prop :=
  Forall (Forall (Forall (Forall row01))) t.

(** All rows [t[b, n, j, i, :]], in storage order. *)
Definition rows (t : tensor5) : list row := concat (concat (concat t)).

(** [.sum()] *)
Definition sum_list (l : list Q) : Q := fold_right Qplus 0%Q l.

(** [torch.argmax] of a vector: the position of the first largest entry;
    no entry at all is a failure. *)
Fixpoint argmax_from (best_i : nat) (best_v : Q) (i : nat) (l : list Q) : nat :=
  match l with
  | [] => best_i
  | v :: l' =>
      if Qlt_le_dec best_v v
      then argmax_from i v (S i) l'
      else argmax_from best_i best_v (S i) l'
  end.

Definition argmax (l : list Q) : result nat :=
  match l with
  | [] => raise EmptyReduction
  | v :: l' => ok (argmax_from 0 v 1 l')
  end.

(** [torch.max(v, dim)] of one vector: the largest entry with the
    position of its first occurrence. *)
Fixpoint max_from (best_i : nat) (best_v : Q) (i : nat) (l : list Q) : Q * nat :=
  match l with
  | [] => (best_v, best_i)
  | v :: l' =>
      if Qlt_le_dec best_v v
      then max_from i v (S i) l'
      else max_from best_i best_v (S i) l'
  end.

Definition max_with_index (l : list Q) : result (Q * nat) :=
  match l with
  | [] => raise EmptyReduction
  | v :: l' => ok (max_from 0 v 1 l')
  end.

End Tensor.

(* ===================================================================== *)
(** * 3. Target assignment and loss: [YOLOLoss.forward] *)
(* ===================================================================== *)

Module Loss.

Import Geometry Tensor.
Local Open Scope Q_scope.

(** One ground-truth row [cls, x, y, w, h] of [targets[b]]. *)
Record gt_box : Type := GT {
  gt_cls : Q; gt_x : Q; gt_y : Q; gt_w : Q; gt_h : Q
}.

(** An anchor [(w, h)], in grid units. *)
Abbreviation anchor := (Q * Q)%type (only parsing).

(** The fields of [YOLOLoss] set by [__init__]. *)
Record yolo_loss : Type := YOLOLoss {
  anchors : list anchor;
  num_classes : nat;
  lambda_box : Q;
  lambda_obj : Q;
  lambda_noobj : Q;
  lambda_cls : Q
}.

(** [YOLOLoss(anchors, num_classes)] with the default weights. *)
Definition yolo_loss_default (a : list anchor) (nc : nat) : yolo_loss :=
  YOLOLoss a nc 5 1 (1 # 2) 1.

(** [B, A, gh, gw, _ = preds.shape] *)
Record shape : Type := Shape { sB : nat; sA : nat; sgh : nat; sgw : nat }.

(** Python's [int(v)] on a number: truncation toward zero. *)
Definition int_of (q : Q) : Z := Z.quot (Qnum q) (Zpos (Qden q)).

(** [torch.cat([torch.zeros((A,2)), anchors], dim=1)]: one row
    [(0, 0, aw, ah)] per anchor; the two blocks must have [A] rows each. *)
Definition anchor_boxes (A : nat) (anchors : list anchor) : result (list box) :=
  if Nat.eqb (length anchors) A
  then ok (map (fun a => [0; 0; fst a; snd a]) anchors)
  else raise ShapeMismatch.

(** Lines 207-223: the cell, the box compared with the anchors and the
    best anchor of one ground-truth row. *)
Definition cell_x (s : shape) (gt : gt_box) : Q := gt_x gt * inject_Z (Z.of_nat (sgw s)).
Definition cell_y (s : shape) (gt : gt_box) : Q := gt_y gt * inject_Z (Z.of_nat (sgh s)).
Definition box_w (s : shape) (gt : gt_box) : Q := gt_w gt * inject_Z (Z.of_nat (sgw s)).
Definition box_h (s : shape) (gt : gt_box) : Q := gt_h gt * inject_Z (Z.of_nat (sgh s)).

Definition candidate_box (s : shape) (gt : gt_box) : box :=
  let gx := cell_x s gt in
  let gy := cell_y s gt in
  let gi := int_of gx in
  let gj := int_of gy in
  [gx - inject_Z gi; gy - inject_Z gj; box_w s gt; box_h s gt].

Definition best_anchor (L : yolo_loss) (s : shape) (gt : gt_box) : result nat :=
  let box := candidate_box s gt in
  let* anchor_bs := anchor_boxes (sA s) (anchors L) in
  let box_rep := replicate (sA s) box in
  let* ious := bbox_iou_rows eps_default box_rep anchor_bs in
  argmax ious.

(** The spec's reading of anchor selection (section 4.2, step 3), kept
    apart from the code's [best_anchor] to compare the two: the candidate
    box is zero-centered, of size [(gw_box, gh_box)]. *)
Definition spec_best_anchor (L : yolo_loss) (s : shape) (gt : gt_box) : result nat :=
  let box := [0; 0; box_w s gt; box_h s gt] in
  let* anchor_bs := anchor_boxes (sA s) (anchors L) in
  let box_rep := replicate (sA s) box in
  let* ious := bbox_iou_rows eps_default box_rep anchor_bs in
  argmax ious.

(** Lines 205-234: the body of the loop over the rows of [targets[b]]. *)
Definition assign_gt (L : yolo_loss) (s : shape) (b : nat) (gt : gt_box)
    (t : tensor5) : result tensor5 :=
  let gx := cell_x s gt in
  let gy := cell_y s gt in
  let gi := int_of gx in
  let gj := int_of gy in
  let gw_box := box_w s gt in
  let gh_box := box_h s gt in
  let* best_n := best_anchor L s gt in
  let b := Z.of_nat b in
  let best_n := Z.of_nat best_n in
  let* t := set5 t b best_n gj gi 4 1 in
  let* t := set5 t b best_n gj gi 0 (gx - inject_Z gi) in
  let* t := set5 t b best_n gj gi 1 (gy - inject_Z gj) in
  let* t := set5 t b best_n gj gi 2 gw_box in
  let* t := set5 t b best_n gj gi 3 gh_box in
  set5 t b best_n gj gi (5 + int_of (gt_cls gt)) 1.

(** [for gt in targets[b]: ...] *)
Fixpoint assign_image (L : yolo_loss) (s : shape) (b : nat) (gts : list gt_box)
    (t : tensor5) : result tensor5 :=
  match gts with
  | [] => ok t
  | gt :: gts' => let* t' := assign_gt L s b gt t in assign_image L s b gts' t'
  end.

(** [for b in range(B): ...], over the image indices still to do. *)
Fixpoint assign_batch (L : yolo_loss) (s : shape) (bs : list nat)
    (targets : list (list gt_box)) (t : tensor5) : result tensor5 :=
  match bs with
  | [] => ok t
  | b :: bs' =>
      match targets !! b with
      | None => raise OutOfBounds
      | Some gts =>
          let* t' := assign_image L s b gts t in
          assign_batch L s bs' targets t'
      end
  end.

(** Lines 199-234: the target tensor of a batch. *)
Definition build_targets (L : yolo_loss) (s : shape)
    (targets : list (list gt_box)) : result tensor5 :=
  assign_batch L s (seq 0 (sB s)) targets
    (zeros5 (sB s) (sA s) (sgh s) (sgw s) (5 + num_classes L)).

(** [a - b] on two last-dimension slices, with the host library's
    broadcasting of a dimension of size one. *)
Definition sub_bcast (p t : list Q) : result (list Q) :=
  if Nat.eqb (length p) (length t) then ok (zip_with Qminus p t)
  else if Nat.eqb (length p) 1 then ok (map (fun y => hd 0 p - y) t)
  else if Nat.eqb (length t) 1 then ok (map (fun x => x - hd 0 t) p)
  else raise ShapeMismatch.

(** [v.pow(2)] and [(...).pow(2).sum(-1)] *)
Definition sq (v : Q) : Q := v * v.
Definition sq_sum (l : list Q) : Q := sum_list (map sq l).

(** The summands of the four loss terms at one [(b, n, j, i)], from the
    prediction row [p] and the target row [t] (lines 237-258). *)
Record cell_terms : Type := CellTerms {
  box_term : Q; obj_term : Q; noobj_term : Q; cls_term : Q
}.

Definition cell_loss (p t : row) : result cell_terms :=
  let pred_xy := take 2 p in
  let pred_wh := take 2 (drop 2 p) in
  let* pred_obj := channel p 4 in
  let pred_cls := drop 5 p in
  let t_xy := take 2 t in
  let t_wh := take 2 (drop 2 t) in
  let* t_obj := channel t 4 in
  let t_cls := drop 5 t in
  let* dxy := sub_bcast pred_xy t_xy in
  let* dwh := sub_bcast pred_wh t_wh in
  let* dcls := sub_bcast pred_cls t_cls in
  ok (CellTerms
        (t_obj * (sq_sum dxy + sq_sum dwh))
        (t_obj * sq (pred_obj - 1))
        ((1 - t_obj) * sq pred_obj)
        (sum_list (map (fun d => t_obj * sq d) dcls))).

(** The four summands of a position are all zero. *)
Definition terms_zero (ct : cell_terms) : Prop :=
  box_term ct == 0 /\ obj_term ct == 0 /\
  noobj_term ct == 0 /\ cls_term ct == 0.

(** Lines 250-261: the four weighted sums over all positions and their
    total. *)
Definition total_loss (L : yolo_loss) (preds t : tensor5) : result Q :=
  if Nat.eqb (length (rows preds)) (length (rows t)) then
    let* terms := traverse (fun pt => cell_loss (fst pt) (snd pt))
                    (combine (rows preds) (rows t)) in
    let loss_box := lambda_box L * sum_list (map box_term terms) in
    let loss_obj := lambda_obj L * sum_list (map obj_term terms) in
    let loss_noobj := lambda_noobj L * sum_list (map noobj_term terms) in
    let loss_cls := lambda_cls L * sum_list (map cls_term terms) in
    ok (loss_box + loss_obj + loss_noobj + loss_cls)
  else raise ShapeMismatch.

(** [YOLOLoss.forward(preds, targets)], with [s] the leading four
    dimensions of [preds]. *)
Definition forward (L : yolo_loss) (s : shape) (preds : tensor5)
    (targets : list (list gt_box)) : result Q :=
  let* t := build_targets L s targets in
  total_loss L preds t.

End Loss.

(* ===================================================================== *)
(** * 4. Non-maximum suppression: [non_max_suppression] *)
(* ===================================================================== *)

Module NMS.

Import Geometry Tensor.
Local Open Scope Q_scope.

(** The source keeps three tensors [boxes], [scores], [classes] in step,
    indexed alike and filtered by the same masks; one record per position
    holds the three entries.  An output row
    [[x1, y1, x2, y2, confidence, class]] is the same record. *)
Record detection : Type := Det {
  d_box : box;
  d_score : Q;
  d_class : nat
}.

(** [a < b] as a mask entry. *)
Definition Qltb (a b : Q) : bool := if Qlt_le_dec a b then true else false.

(** Lines 279-284 on one row of [flat]: the box, and
    [objness * class_conf] with the class of the best score. *)
Definition row_candidate (r : row) : result detection :=
  let boxes := take 4 r in
  let* objness := channel r 4 in
  let class_scores := drop 5 r in
  let* m := max_with_index class_scores in
  ok (Det boxes (objness * fst m) (snd m)).

(** [boxes_xyxy = xywh_to_xyxy(boxes)] *)
Definition to_corners (c : detection) : result detection :=
  let* b := xywh_to_xyxy (d_box c) in
  ok (Det b (d_score c) (d_class c)).

(** [scores.sort(descending=True)] with [boxes_xyxy[order]] and
    [classes[order]]: an insertion sort by descending score that keeps
    the input order among equal scores. *)
Fixpoint insert_desc (c : detection) (l : list detection) : list detection :=
  match l with
  | [] => [c]
  | d :: l' =>
      if Qlt_le_dec (d_score c) (d_score d)
      then d :: insert_desc c l'
      else c :: d :: l'
  end.

Definition sort_desc (l : list detection) : list detection :=
  fold_right insert_desc [] l.

(** Boolean-mask indexing [v[mask]]. *)
Fixpoint select {A} (mask : list bool) (l : list A) : list A :=
  match mask, l with
  | m :: ms, x :: xs => if m then x :: select ms xs else select ms xs
  | _, _ => []
  end.

Lemma select_length {A} (mask : list bool) (l : list A) :
  (length (select mask l) <= length l)%nat.
Proof.
  revert l. induction mask as [|m ms IH]; intros [|x xs]; simpl; try lia.
  destruct m; simpl; specialize (IH xs); lia.
Qed.

(** Lines 302-321: the [while] loop.  [cands] is what is left of the
    sorted candidates, [keep] the rows appended so far. *)
Equations? nms_loop (iou_threshold : Q) (cands : list detection)
    (keep : list detection) : result (list detection)
    by wf (length cands) lt :=
nms_loop thr [] keep := ok keep;
nms_loop thr (best :: rest) keep with rest => {
  | [] := ok (keep ++ [best]);
  | r :: rs
      with bbox_iou_rows eps_default
             (replicate (length (r :: rs)) (d_box best))
             (map d_box (r :: rs)) => {
      | inl e := raise e;
      | inr ious :=
          nms_loop thr
            (select (map (fun v => Qltb v thr) ious) (r :: rs))
            (keep ++ [best]) } }.
Proof.
  pose proof (select_length (map (fun v => Qltb v thr) ious) (r :: rs)) as H.
  simpl in H. lia.
Qed.

(** [b] does not score above [a]. *)
Definition by_score_desc (a b : detection) : Prop :=
  d_score b <= d_score a.

(** [b] passed the mask of the round that kept [a]: the IoU the code
    computed for the pair is below the threshold. *)
Definition passed_mask (thr : Q) (a b : detection) : Prop :=
  exists v, bbox_iou eps_default (d_box a) (d_box b) = ok v /\ v < thr.

(** The body of [for pred in prediction], with [nc = pred.shape[3]]. *)
Definition nms_image (conf_threshold iou_threshold : Q) (nc : nat)
    (pred : list (list (list row))) : result (list detection) :=
  let flat := concat (concat pred) in
  if Nat.ltb nc 5 then raise OutOfBounds
  else if Nat.eqb nc 5 then raise EmptyReduction
  else
    let* cands := traverse row_candidate flat in
    let mask := map (fun c => Qltb conf_threshold (d_score c)) cands in
    let kept := select mask cands in
    match kept with
    | [] => ok []
    | _ :: _ =>
        let* corners := traverse to_corners kept in
        nms_loop iou_threshold (sort_desc corners) []
    end.

(** [non_max_suppression(prediction, conf_threshold, iou_threshold)] *)
Definition non_max_suppression (conf_threshold iou_threshold : Q) (nc : nat)
    (prediction : list (list (list (list row)))) : result (list (list detection)) :=
  traverse (nms_image conf_threshold iou_threshold nc) prediction.

End NMS.

(* ===================================================================== *)
(** * 5. Index validity of a ground-truth row *)
(* ===================================================================== *)

Module Validity.

Import Tensor Loss.

(** The three data-dependent indices of the writes of a ground-truth row
    (column, row, class channel) denote positions of the target tensor. *)
Definition valid_gt (L : yolo_loss) (s : shape) (gt : gt_box) : Prop :=
  (- Z.of_nat (sgw s) <= int_of (cell_x s gt) < Z.of_nat (sgw s))%Z /\
  (- Z.of_nat (sgh s) <= int_of (cell_y s gt) < Z.of_nat (sgh s))%Z /\
  (- Z.of_nat (5 + num_classes L) <= 5 + int_of (gt_cls gt)
   < Z.of_nat (5 + num_classes L))%Z.

End Validity.

(* ===================================================================== *)
(** * 6. Predicates on loss summands *)
(* ===================================================================== *)

Module LossTerms.

Import Tensor Loss.
Local Open Scope Q_scope.

(** The four summands of a position are non-negative. *)
Definition terms_nonneg (ct : cell_terms) : Prop :=
  0 <= box_term ct /\ 0 <= obj_term ct /\
  0 <= noobj_term ct /\ 0 <= cls_term ct.

(** The summands of a position whose target row is all zeros: only the
    no-object term is left, the square of the predicted objectness. *)
Definition terms_background (p : row) (ct : cell_terms) : Prop :=
  box_term ct == 0 /\ obj_term ct == 0 /\
  noobj_term ct == sq (nth 4 p 0) /\ cls_term ct == 0.

End LossTerms.

(* ===================================================================== *)
(** * 7. Inference: [inference] *)
(* ===================================================================== *)

Module Inference.

Import Tensor NMS.
Local Open Scope Q_scope.

(** Lines 409-411 of [inference], from the network output [pred] of the
    one-image batch on: [det = non_max_suppression(pred, 0.4, 0.5)] and
    [return det[0]]. *)
Definition inference (nc : nat) (pred : list (list (list (list row))))
  : result (list detection) :=
  let* det := non_max_suppression (2 # 5) (1 # 2) nc pred in
  match det !! 0%nat with
  | Some d => ok d
  | None => raise OutOfBounds
  end.

(** A detection that comes from a row of the flattened predictions: the
    row's candidate scores above the threshold and the detection is the
    candidate with its box taken to corner form. *)
Definition from_row (conf : Q) (flat : list row) (d : detection) : Prop :=
  exists r c,
    In r flat /\ row_candidate r = ok c /\ conf < d_score c /\
    to_corners c = ok d.

End Inference.

(* ===================================================================== *)
(** * 8. The output layout of the network: [YOLO.forward] *)
(* ===================================================================== *)

Module Network.

Import Tensor.

(** What [YOLO.forward] does after the head convolution (lines 167-172),
    on the head output [(B, ch, gh, gw)]:
    [view(B, A, C, gh, gw)] then [permute(0, 1, 3, 4, 2)], with
    [A = num_anchors] and [C = 5 + num_classes]. *)

(** [m[k, j, i]] of one image's channels, 0 outside. *)
Definition entry3 (x : list (list (list Q))) (k j i : nat) : Q :=
  match x !! k with
  | Some m =>
      match m !! j with
      | Some r => match r !! i with Some v => v | None => 0%Q end
      | None => 0%Q
      end
  | None => 0%Q
  end.

(** The view on one image: the channels in [A] consecutive runs of [C]. *)
Definition view_anchors (A C : nat) (x : list (list (list Q)))
  : list (list (list (list Q))) :=
  (fun a => take C (drop (a * C) x)) <$> seq 0 A.

(** The permutation on one anchor's run: from [(C, gh, gw)] to
    [(gh, gw, C)]. *)
Definition permute_last (C gh gw : nat) (x : list (list (list Q)))
  : list (list (list Q)) :=
  (fun j => (fun i => (fun c => entry3 x c j i) <$> seq 0 C) <$> seq 0 gw)
    <$> seq 0 gh.

(** The two steps on a batch; the view needs as many entries as the
    new shape has. *)
Definition yolo_forward (A C ch gh gw : nat)
    (head_out : list (list (list (list Q)))) : result tensor5 :=
  let B := length head_out in
  if Nat.eqb (B * ch * gh * gw) (B * A * C * gh * gw)
  then ok ((fun x => permute_last C gh gw <$> view_anchors A C x) <$> head_out)
  else raise ShapeMismatch.

End Network.

(* ===================================================================== *)
(** * 9. Label files: [YOLODataset.__getitem__] *)
(* ===================================================================== *)

Module Dataset.

Import Loss.

Section Labels.

(** Lines 67-77, from the lines of the label file on.  The characters of
    a line, [str.isspace] and [float] belong to the host language and
    are parameters here; [float_of] is [None] where [float] raises. *)
Context {char : Type}.
Variable isspace : char -> bool.
Variable float_of : list char -> option Q.

(** [s.lstrip()] and [s.rstrip()] *)
Fixpoint lstrip (s : list char) : list char :=
  match s with
  | [] => []
  | c :: s' => if isspace c then lstrip s' else s
  end.

Fixpoint rstrip (s : list char) : list char :=
  match s with
  | [] => []
  | c :: s' =>
      match rstrip s' with
      | [] => if isspace c then [] else [c]
      | r => c :: r
      end
  end.

(** [s.strip()] *)
Definition strip (s : list char) : list char := rstrip (lstrip s).

(** [s.split()]: the maximal runs of characters that are not
    whitespace; [cur] is the run being read. *)
Fixpoint split_from (cur : list char) (s : list char) : list (list char) :=
  match s with
  | [] => match cur with [] => [] | _ => [cur] end
  | c :: s' =>
      if isspace c
      then match cur with
           | [] => split_from [] s'
           | _ => cur :: split_from [] s'
           end
      else split_from (cur ++ [c]) s'
  end.

Definition split (s : list char) : list (list char) := split_from [] s.

(** [sep.join(parts)] *)
Fixpoint join (sep : char) (parts : list (list char)) : list char :=
  match parts with
  | [] => []
  | [p] => p
  | p :: ps => p ++ sep :: join sep ps
  end.

(** The body of the loop on one line's fields: [Some None] is
    [continue], [None] is the error [float] raises. *)
Definition parse_fields (parts : list (list char)) : option (option gt_box) :=
  match parts with
  | [cls; x; y; w; h] =>
      match float_of cls, float_of x, float_of y, float_of w, float_of h with
      | Some c, Some vx, Some vy, Some vw, Some vh =>
          Some (Some (GT c vx vy vw vh))
      | _, _, _, _, _ => None
      end
  | _ => Some None
  end.

(** [for line in f: ...] *)
Fixpoint parse_labels (lines : list (list char)) : option (list gt_box) :=
  match lines with
  | [] => Some []
  | line :: rest =>
      match parse_fields (split (strip line)) with
      | None => None
      | Some None => parse_labels rest
      | Some (Some gt) =>
          match parse_labels rest with
          | Some gts => Some (gt :: gts)
          | None => None
          end
      end
  end.

(** [if os.path.exists(label_path): ...], with [file] the lines of the
    label file when there is one. *)
Definition load_targets (file : option (list (list char))) : option (list gt_box) :=
  match file with
  | None => Some []
  | Some lines => parse_labels lines
  end.

(** A field as [split] returns them: not empty, no whitespace in it. *)
Definition clean (t : list char) : Prop :=
  t <> [] /\ Forall (fun c => isspace c = false) t.

(** The floats of the five fields of a line make the row [gt]. *)
Definition row_of_line (line : list char) (gt : gt_box) : Prop :=
  exists c x y w h,
    split (strip line) = [c; x; y; w; h] /\
    float_of c = Some (gt_cls gt) /\ float_of x = Some (gt_x gt) /\
    float_of y = Some (gt_y gt) /\ float_of w = Some (gt_w gt) /\
    float_of h = Some (gt_h gt).

End Labels.

End Dataset.

(* ===================================================================== *)
(** * Facts about the error monad *)
(* ===================================================================== *)

Lemma bind_ok_inv {A B} (m : result A) (k : A -> result B) (b : B) :
  bind m k = ok b -> exists a, m = ok a /\ k a = ok b.
Proof. destruct m as [e|a]; simpl; [discriminate | eauto]. Qed.

Lemma traverse_length {A B} (f : A -> result B) (l : list A) (l' : list B) :
  traverse f l = ok l' -> length l' = length l.
Proof.
  revert l'. induction l as [|x xs IH]; simpl; intros l' H.
  - injection H as <-. reflexivity.
  - apply bind_ok_inv in H as (y & _ & H).
    apply bind_ok_inv in H as (ys & Hys & H).
    injection H as <-. simpl. f_equal. apply IH, Hys.
Qed.

Lemma traverse_total {A B} (f : A -> result B) (g : A -> B) (l : list A) :
  Forall (fun x => f x = ok (g x)) l -> traverse f l = ok (map g l).
Proof.
  induction 1 as [|x xs Hx _ IH]; simpl; [reflexivity|].
  rewrite Hx. simpl. rewrite IH. reflexivity.
Qed.

(* ===================================================================== *)
(** * Facts about the geometry *)
(* ===================================================================== *)

Module GeometryFacts.

Import Geometry.
Local Open Scope Q_scope.

Lemma clamp_min_nonneg (v : Q) : 0 <= clamp_min 0 v.
Proof. unfold clamp_min. destruct (Qlt_le_dec v 0); lra. Qed.

Lemma clamp_min_mono (u v : Q) : u <= v -> clamp_min 0 u <= clamp_min 0 v.
Proof.
  unfold clamp_min. intros H.
  destruct (Qlt_le_dec u 0), (Qlt_le_dec v 0); lra.
Qed.

Lemma clamp_min_compat (u v : Q) : u == v -> clamp_min 0 u == clamp_min 0 v.
Proof.
  intros H. apply Qle_antisym; apply clamp_min_mono; lra.
Qed.

Lemma clamp_min_nonpos (v : Q) : v <= 0 -> clamp_min 0 v == 0.
Proof. unfold clamp_min. intros H. destruct (Qlt_le_dec v 0); lra. Qed.

Lemma overlap_sym (lo1 hi1 lo2 hi2 : Q) :
  overlap lo1 hi1 lo2 hi2 == overlap lo2 hi2 lo1 hi1.
Proof.
  unfold overlap. apply clamp_min_compat.
  rewrite (Q.min_comm hi1 hi2), (Q.max_comm lo1 lo2). reflexivity.
Qed.

Lemma overlap_le_l (lo1 hi1 lo2 hi2 : Q) :
  overlap lo1 hi1 lo2 hi2 <= clamp_min 0 (hi1 - lo1).
Proof.
  unfold overlap. apply clamp_min_mono.
  pose proof (Q.le_min_l hi1 hi2). pose proof (Q.le_max_l lo1 lo2). lra.
Qed.

Lemma overlap_le_r (lo1 hi1 lo2 hi2 : Q) :
  overlap lo1 hi1 lo2 hi2 <= clamp_min 0 (hi2 - lo2).
Proof.
  rewrite overlap_sym. apply overlap_le_l.
Qed.

Lemma mult_le_mult (a b c d : Q) :
  0 <= a -> a <= c -> 0 <= b -> b <= d -> a * b <= c * d.
Proof. intros. nra. Qed.

(** [bbox_iou] on two four-coordinate boxes, unfolded: both are taken
    through [xywh_to_xyxy], whatever form they came in. *)
Lemma bbox_iou_unfold (eps x1 y1 w1 h1 x2 y2 w2 h2 : Q) :
  bbox_iou eps [x1; y1; w1; h1] [x2; y2; w2; h2] =
  let iw := overlap (x1 - w1 / 2) (x1 + w1 / 2) (x2 - w2 / 2) (x2 + w2 / 2) in
  let ih := overlap (y1 - h1 / 2) (y1 + h1 / 2) (y2 - h2 / 2) (y2 + h2 / 2) in
  let area1 := clamp_min 0 (x1 + w1 / 2 - (x1 - w1 / 2))
               * clamp_min 0 (y1 + h1 / 2 - (y1 - h1 / 2)) in
  let area2 := clamp_min 0 (x2 + w2 / 2 - (x2 - w2 / 2))
               * clamp_min 0 (y2 + h2 / 2 - (y2 - h2 / 2)) in
  ok (iw * ih / (area1 + area2 - iw * ih + eps)).
Proof. reflexivity. Qed.

Lemma bbox_iou_total (eps : Q) (b1 b2 : box) :
  length b1 = 4%nat -> length b2 = 4%nat -> exists v, bbox_iou eps b1 b2 = ok v.
Proof.
  intros H1 H2.
  destruct b1 as [|x1 [|y1 [|w1 [|h1 [|? ?]]]]]; try discriminate.
  destruct b2 as [|x2 [|y2 [|w2 [|h2 [|? ?]]]]]; try discriminate.
  rewrite bbox_iou_unfold. eauto.
Qed.

(** C7.  For all boxes A and B in center form, [bbox_iou] returns the
    same value for (A, B) and for (B, A). *)
Theorem bbox_iou_symmetric (eps x1 y1 w1 h1 x2 y2 w2 h2 : Q) :
  exists u v,
    bbox_iou eps [x1; y1; w1; h1] [x2; y2; w2; h2] = ok u /\
    bbox_iou eps [x2; y2; w2; h2] [x1; y1; w1; h1] = ok v /\
    u == v.
Proof.
  rewrite !bbox_iou_unfold. cbv zeta.
  eexists. eexists. split; [reflexivity|]. split; [reflexivity|].
  set (iw := overlap (x1 - w1 / 2) _ _ _).
  set (ih := overlap (y1 - h1 / 2) _ _ _).
  set (iw' := overlap (x2 - w2 / 2) _ _ _).
  set (ih' := overlap (y2 - h2 / 2) _ _ _).
  assert (Hw : iw == iw') by apply overlap_sym.
  assert (Hh : ih == ih') by apply overlap_sym.
  rewrite Hw, Hh. apply Qdiv_comp; [reflexivity | ring].
Qed.

(** C8.  With a positive [eps], [bbox_iou] returns a value for every pair
    of boxes, boxes of zero (or negative) width or height included: the
    divisor [area1 + area2 - inter + eps] is positive, and the value is 0
    as soon as one box has zero area or the intersection is empty. *)
Theorem bbox_iou_degenerate (eps x1 y1 w1 h1 x2 y2 w2 h2 : Q) :
  0 < eps ->
  let inter :=
    overlap (x1 - w1 / 2) (x1 + w1 / 2) (x2 - w2 / 2) (x2 + w2 / 2)
    * overlap (y1 - h1 / 2) (y1 + h1 / 2) (y2 - h2 / 2) (y2 + h2 / 2) in
  let area1 := clamp_min 0 w1 * clamp_min 0 h1 in
  let area2 := clamp_min 0 w2 * clamp_min 0 h2 in
  exists v,
    bbox_iou eps [x1; y1; w1; h1] [x2; y2; w2; h2] = ok v /\
    v == inter / (area1 + area2 - inter + eps) /\
    0 < area1 + area2 - inter + eps /\
    (w1 <= 0 \/ h1 <= 0 \/ w2 <= 0 \/ h2 <= 0 -> v == 0) /\
    (area1 == 0 \/ area2 == 0 \/ inter == 0 -> v == 0).
Proof.
  intros Heps inter area1 area2.
  rewrite bbox_iou_unfold. cbv zeta.
  set (iw := overlap (x1 - w1 / 2) _ _ _) in *.
  set (ih := overlap (y1 - h1 / 2) _ _ _) in *.
  assert (Ew1 : clamp_min 0 (x1 + w1 / 2 - (x1 - w1 / 2)) == clamp_min 0 w1)
    by (apply clamp_min_compat; field).
  assert (Eh1 : clamp_min 0 (y1 + h1 / 2 - (y1 - h1 / 2)) == clamp_min 0 h1)
    by (apply clamp_min_compat; field).
  assert (Ew2 : clamp_min 0 (x2 + w2 / 2 - (x2 - w2 / 2)) == clamp_min 0 w2)
    by (apply clamp_min_compat; field).
  assert (Eh2 : clamp_min 0 (y2 + h2 / 2 - (y2 - h2 / 2)) == clamp_min 0 h2)
    by (apply clamp_min_compat; field).
  assert (Hiw : 0 <= iw) by apply clamp_min_nonneg.
  assert (Hih : 0 <= ih) by apply clamp_min_nonneg.
  assert (Hi1 : iw * ih <= area1).
  { apply mult_le_mult; try assumption.
    - rewrite <- Ew1. apply overlap_le_l.
    - rewrite <- Eh1. apply overlap_le_l. }
  assert (Hi2 : iw * ih <= area2).
  { apply mult_le_mult; try assumption.
    - rewrite <- Ew2. apply overlap_le_r.
    - rewrite <- Eh2. apply overlap_le_r. }
  assert (Hi0 : 0 <= iw * ih) by (apply Qmult_le_0_compat; assumption).
  assert (Hzero : inter == 0 ->
                  inter / (area1 + area2 - inter + eps) == 0).
  { intros ->. unfold Qdiv. ring. }
  assert (Ha1 : area1 == 0 -> inter == 0) by (unfold inter; lra).
  assert (Ha2 : area2 == 0 -> inter == 0) by (unfold inter; lra).
  eexists. split; [reflexivity|].
  assert (Ev : iw * ih /
               (clamp_min 0 (x1 + w1 / 2 - (x1 - w1 / 2))
                * clamp_min 0 (y1 + h1 / 2 - (y1 - h1 / 2))
                + clamp_min 0 (x2 + w2 / 2 - (x2 - w2 / 2))
                  * clamp_min 0 (y2 + h2 / 2 - (y2 - h2 / 2))
                - iw * ih + eps)
               == inter / (area1 + area2 - inter + eps)).
  { rewrite Ew1, Eh1, Ew2, Eh2. reflexivity. }
  split; [exact Ev|].
  split; [unfold inter; lra|].
  split.
  - intros Hdeg. rewrite Ev. apply Hzero.
    destruct Hdeg as [H|[H|[H|H]]]; [apply Ha1|apply Ha1|apply Ha2|apply Ha2];
      unfold area1, area2; rewrite (clamp_min_nonpos _ H); ring.
  - intros Hdeg. rewrite Ev. apply Hzero.
    destruct Hdeg as [H|[H|H]]; auto.
Qed.

Lemma bbox_iou_degenerate_witness :
  exists v, bbox_iou eps_default [0; 0; 0; 1] [0; 0; 1; 1] = ok v /\ v == 0.
Proof.
  destruct (bbox_iou_degenerate eps_default 0 0 0 1 0 0 1 1 eq_refl)
    as (v & Hv & _ & _ & Hz & _).
  exists v. split; [exact Hv|]. apply Hz. left. discriminate.
Defined.

(** A box of four coordinates always takes the conversion branch of
    [bbox_iou]: a corner-form box is read as (center, size). *)
Lemma to_xyxy_if_4_converts (a b c d : Q) :
  to_xyxy_if_4 [a; b; c; d] = ok [a - c / 2; b - d / 2; a + c / 2; b + d / 2].
Proof. reflexivity. Qed.

(** C3 (the code departs from it).  On the corner-form boxes (0,0,2,2) and
    (1,1,3,3), whose intersection is 1 and whose union is 7, [bbox_iou]
    converts both boxes once more and returns 2.25 / (10.75 + eps), not
    the 1 / (7 + eps) of the spec's formula. *)
Theorem bbox_iou_corner_form_reconverted :
  exists v,
    bbox_iou eps_default [0; 0; 2; 2] [1; 1; 3; 3] = ok v /\
    v == (9 # 4) / ((43 # 4) + eps_default) /\
    spec_iou_corner eps_default (0, 0, 2, 2) (1, 1, 3, 3)
      == 1 / (7 + eps_default) /\
    ~ v == spec_iou_corner eps_default (0, 0, 2, 2) (1, 1, 3, 3).
Proof.
  eexists. split; [vm_compute; reflexivity|].
  split; [vm_compute; reflexivity|].
  split; [vm_compute; reflexivity|].
  vm_compute. discriminate.
Qed.

End GeometryFacts.

(* ===================================================================== *)
(** * Facts about indexed writes *)
(* ===================================================================== *)

Module TensorFacts.

Import Tensor.

Lemma norm_index_nat (n k : nat) : k < n -> norm_index n (Z.of_nat k) = Some k.
Proof.
  intros H. unfold norm_index.
  destruct (Z.leb_spec 0 (Z.of_nat k)); [|lia].
  destruct (Z.ltb_spec (Z.of_nat k) (Z.of_nat n)); [|lia].
  simpl. f_equal. lia.
Qed.

Lemma norm_index_size (n : nat) : norm_index n (Z.of_nat n) = None.
Proof.
  unfold norm_index.
  destruct (Z.ltb_spec (Z.of_nat n) (Z.of_nat n)); [lia|].
  rewrite andb_false_r.
  destruct (Z.ltb_spec (Z.of_nat n) 0); [lia|].
  rewrite andb_false_r. reflexivity.
Qed.

Lemma norm_index_lt (n : nat) (k : Z) (m : nat) :
  norm_index n k = Some m -> m < n.
Proof.
  unfold norm_index.
  destruct (Z.leb_spec 0 k), (Z.ltb_spec k (Z.of_nat n)); simpl;
    try (intros [= <-]; lia);
    destruct (Z.leb_spec (- Z.of_nat n) k), (Z.ltb_spec k 0); simpl;
    try discriminate; intros [= <-]; lia.
Qed.

Section Upd.
Context {A : Type}.
Implicit Types (l : list A) (f : A -> result A) (P : A -> Prop).

Lemma upd_inv k f l l' :
  upd k f l = ok l' ->
  exists n x x', norm_index (length l) k = Some n /\ l !! n = Some x /\
                 f x = ok x' /\ l' = <[n := x']> l.
Proof.
  unfold upd. destruct (norm_index (length l) k) as [n|]; [|discriminate].
  destruct (l !! n) as [x|] eqn:Hx; [|discriminate].
  intros H. apply bind_ok_inv in H as (x' & Hf & [= <-]).
  exists n, x, x'. auto.
Qed.

Lemma upd_at k f l n x :
  norm_index (length l) k = Some n -> l !! n = Some x ->
  upd k f l = let* x' := f x in ok (<[n := x']> l).
Proof. intros Hk Hx. unfold upd. rewrite Hk, Hx. reflexivity. Qed.

Lemma upd_sized n P k f l l' :
  sized n P l ->
  (forall x x', P x -> f x = ok x' -> P x') ->
  upd k f l = ok l' -> sized n P l'.
Proof.
  intros [Hlen HP] Hf H.
  apply upd_inv in H as (m & x & x' & _ & Hx & Hfx & ->).
  split; [by rewrite length_insert|].
  apply Forall_insert; [assumption|].
  eapply Hf; [|eassumption].
  eapply Forall_lookup_1; eassumption.
Qed.

(** A write can only fail as an index error when the write below it
    can only fail so. *)
Lemma upd_failure k f l e :
  (forall x e', f x = inl e' -> e' = OutOfBounds) ->
  upd k f l = inl e -> e = OutOfBounds.
Proof.
  intros Hf. unfold upd.
  destruct (norm_index (length l) k) as [n|]; [|by intros [= <-]].
  destruct (l !! n) as [x|]; [|by intros [= <-]].
  destruct (f x) as [e'|x'] eqn:Hfx; simpl; [|discriminate].
  intros [= <-]. eapply Hf, Hfx.
Qed.

Lemma upd_oob_index k f l :
  norm_index (length l) k = None -> upd k f l = raise OutOfBounds.
Proof. intros H. unfold upd. by rewrite H. Qed.

(** When the write below fails on every entry, the write fails whatever
    the index. *)
Lemma upd_oob_below P k f l :
  Forall P l -> (forall x, P x -> f x = raise OutOfBounds) ->
  upd k f l = raise OutOfBounds.
Proof.
  intros HP Hf. unfold upd.
  destruct (norm_index (length l) k) as [n|]; [|reflexivity].
  destruct (l !! n) as [x|] eqn:Hx; [|reflexivity].
  rewrite (Hf x); [reflexivity|].
  eapply Forall_lookup_1; eassumption.
Qed.
End Upd.

Lemma set5_shaped B A gh gw nc t b n j i c v t' :
  shaped5 B A gh gw nc t -> set5 t b n j i c v = ok t' ->
  shaped5 B A gh gw nc t'.
Proof.
  unfold shaped5, set5. intros Ht H.
  eapply upd_sized; [exact Ht| |exact H].
  intros t4 t4' H4 E4. eapply upd_sized; [exact H4| |exact E4].
  intros t3 t3' H3 E3. eapply upd_sized; [exact H3| |exact E3].
  intros t2 t2' H2 E2. eapply upd_sized; [exact H2| |exact E2].
  intros r r' Hr Er. cbv beta in *.
  apply upd_inv in Er as (m & x & x' & _ & _ & _ & ->).
  by rewrite length_insert.
Qed.

Lemma set5_failure t b n j i c v e :
  set5 t b n j i c v = inl e -> e = OutOfBounds.
Proof.
  unfold set5. apply upd_failure.
  intros t4 e4. apply upd_failure.
  intros t3 e3. apply upd_failure.
  intros t2 e2. apply upd_failure.
  intros r er. apply upd_failure.
  intros x e'. discriminate.
Qed.

(** An index outside the grid width (dimension 3) or the grid height
    (dimension 2) makes the write fail, whatever the other indices. *)
Lemma set5_oob_i B A gh gw nc t b n j i c v :
  shaped5 B A gh gw nc t -> norm_index gw i = None ->
  set5 t b n j i c v = raise OutOfBounds.
Proof.
  unfold shaped5, set5. intros [_ Ht] Hi.
  eapply upd_oob_below; [exact Ht|]. intros t4 [_ H4].
  eapply upd_oob_below; [exact H4|]. intros t3 [_ H3].
  eapply upd_oob_below; [exact H3|]. intros t2 [Hlen _].
  apply upd_oob_index. by rewrite Hlen.
Qed.

Lemma set5_oob_j B A gh gw nc t b n j i c v :
  shaped5 B A gh gw nc t -> norm_index gh j = None ->
  set5 t b n j i c v = raise OutOfBounds.
Proof.
  unfold shaped5, set5. intros [_ Ht] Hj.
  eapply upd_oob_below; [exact Ht|]. intros t4 [_ H4].
  eapply upd_oob_below; [exact H4|]. intros t3 [Hlen _].
  apply upd_oob_index. by rewrite Hlen.
Qed.

Lemma zeros5_shaped B A gh gw nc : shaped5 B A gh gw nc (zeros5 B A gh gw nc).
Proof.
  unfold shaped5, zeros5, sized.
  repeat (split; [apply length_replicate|]; apply Forall_replicate).
  apply length_replicate.
Qed.

Lemma get5_zeros B A gh gw nc b n j i c :
  b < B -> n < A -> j < gh -> i < gw -> c < nc ->
  get5 (zeros5 B A gh gw nc) b n j i c = Some 0%Q.
Proof.
  intros. unfold get5, zeros5.
  by rewrite !lookup_replicate_2.
Qed.

(** Reading after a write at a position that exists: the written entry
    is new, every other entry is as before. *)
Lemma set5_get5 t b n j i c v :
  is_Some (get5 t b n j i c) ->
  exists t',
    set5 t (Z.of_nat b) (Z.of_nat n) (Z.of_nat j) (Z.of_nat i) (Z.of_nat c) v
      = ok t' /\
    forall b' n' j' i' c',
      get5 t' b' n' j' i' c' =
      if decide (b' = b /\ n' = n /\ j' = j /\ i' = i /\ c' = c)
      then Some v else get5 t b' n' j' i' c'.
Proof.
  unfold get5. intros [old Hold].
  destruct (t !! b) as [t4|] eqn:E4; [|discriminate].
  destruct (t4 !! n) as [t3|] eqn:E3; [|discriminate].
  destruct (t3 !! j) as [t2|] eqn:E2; [|discriminate].
  destruct (t2 !! i) as [r|] eqn:E1; [|discriminate].
  pose proof (lookup_lt_Some _ _ _ E4) as L4.
  pose proof (lookup_lt_Some _ _ _ E3) as L3.
  pose proof (lookup_lt_Some _ _ _ E2) as L2.
  pose proof (lookup_lt_Some _ _ _ E1) as L1.
  pose proof (lookup_lt_Some _ _ _ Hold) as L0.
  eexists. split.
  - unfold set5.
    rewrite (upd_at _ _ _ _ _ (norm_index_nat _ _ L4) E4).
    rewrite (upd_at _ _ _ _ _ (norm_index_nat _ _ L3) E3).
    rewrite (upd_at _ _ _ _ _ (norm_index_nat _ _ L2) E2).
    rewrite (upd_at _ _ _ _ _ (norm_index_nat _ _ L1) E1).
    rewrite (upd_at _ _ _ _ _ (norm_index_nat _ _ L0) Hold).
    reflexivity.
  - intros b' n' j' i' c'.
    destruct (decide (b' = b)) as [->|Nb];
      [rewrite list_lookup_insert_eq by done
      |rewrite list_lookup_insert_ne by done; case_decide; [lia|done]].
    destruct (decide (n' = n)) as [->|Nn];
      [rewrite list_lookup_insert_eq by done
      |rewrite list_lookup_insert_ne by done; rewrite E4;
       case_decide; [lia|done]].
    destruct (decide (j' = j)) as [->|Nj];
      [rewrite list_lookup_insert_eq by done
      |rewrite list_lookup_insert_ne by done; rewrite E4, E3;
       case_decide; [lia|done]].
    destruct (decide (i' = i)) as [->|Ni];
      [rewrite list_lookup_insert_eq by done
      |rewrite list_lookup_insert_ne by done; rewrite E4, E3, E2;
       case_decide; [lia|done]].
    rewrite E4, E3, E2, E1.
    destruct (decide (c' = c)) as [->|Nc];
      [rewrite list_lookup_insert_eq by done; case_decide; [done|lia]
      |rewrite list_lookup_insert_ne by done; case_decide; [lia|done]].
Qed.

End TensorFacts.

(* ===================================================================== *)
(** * Facts about target assignment *)
(* ===================================================================== *)

Module AssignFacts.

Import Geometry Tensor Loss TensorFacts.

Lemma int_of_inject (q : Q) (z : Z) : (q == inject_Z z)%Q -> int_of q = z.
Proof.
  destruct q as [num den]. unfold Qeq, int_of. simpl. intros H.
  rewrite Z.mul_1_r in H. subst num. apply Z.quot_mul. lia.
Qed.

Lemma int_of_range (q : Q) (n : nat) :
  (0 <= q)%Q -> (q < inject_Z (Z.of_nat n))%Q ->
  exists k, int_of q = Z.of_nat k /\ k < n.
Proof.
  destruct q as [num den]. unfold Qle, Qlt, int_of. simpl. intros H0 Hn.
  rewrite Z.mul_1_r in *.
  rewrite Z.quot_div_nonneg by lia.
  assert (0 <= num / Z.pos den)%Z by (apply Z.div_pos; lia).
  assert (num / Z.pos den < Z.of_nat n)%Z
    by (apply Z.div_lt_upper_bound; lia).
  exists (Z.to_nat (num / Z.pos den)). split; lia.
Qed.

Lemma scaled_in_grid (x : Q) (n : nat) :
  (0 <= x)%Q -> (x < 1)%Q -> 0 < n ->
  (0 <= x * inject_Z (Z.of_nat n))%Q /\
  (x * inject_Z (Z.of_nat n) < inject_Z (Z.of_nat n))%Q.
Proof.
  intros H0 H1 Hn.
  assert (0 < inject_Z (Z.of_nat n))%Q by (unfold Qlt; simpl; lia).
  split; nra.
Qed.

Lemma argmax_from_lt (l : list Q) (bi : nat) (bv : Q) (i : nat) :
  bi < i -> argmax_from bi bv i l < i + length l.
Proof.
  revert bi bv i. induction l as [|v l IH]; intros bi bv i H; simpl; [lia|].
  destruct (Qlt_le_dec bv v).
  - pose proof (IH i v (S i) ltac:(lia)). lia.
  - pose proof (IH bi bv (S i) ltac:(lia)). lia.
Qed.

Lemma argmax_ok (l : list Q) :
  0 < length l -> exists n, argmax l = ok n /\ n < length l.
Proof.
  destruct l as [|v l]; simpl; [lia|]. intros _.
  eexists. split; [reflexivity|].
  pose proof (argmax_from_lt l 0 v 1 ltac:(lia)). lia.
Qed.

Lemma iou_rows_anchors (bx : list Q) (n : nat) (ancs : list (Q * Q)) :
  length bx = 4 ->
  Forall (fun p => bbox_iou eps_default (fst p) (snd p) = ok (iou_or_0 p))
    (combine (replicate n bx) (map (fun a => [0%Q; 0%Q; fst a; snd a]) ancs)).
Proof.
  intros Hbx. revert n. induction ancs as [|a ancs IH]; intros [|n]; simpl;
    try constructor; [|apply IH].
  unfold iou_or_0. simpl fst. simpl snd.
  destruct (GeometryFacts.bbox_iou_total eps_default bx [0%Q; 0%Q; fst a; snd a] Hbx eq_refl)
    as [v ->].
  reflexivity.
Qed.

Lemma best_anchor_ok (L : yolo_loss) (s : shape) (gt : gt_box) :
  length (anchors L) = sA s -> 0 < sA s ->
  exists n, best_anchor L s gt = ok n /\ n < sA s.
Proof.
  intros Hlen Hpos. unfold best_anchor, anchor_boxes.
  rewrite Hlen, Nat.eqb_refl. simpl bind.
  unfold bbox_iou_rows.
  rewrite length_replicate, length_map, Hlen, Nat.eqb_refl.
  rewrite (traverse_total _ iou_or_0) by (apply iou_rows_anchors; reflexivity).
  simpl bind.
  destruct (argmax_ok
    (map iou_or_0
       (combine (replicate (sA s) (candidate_box s gt))
          (map (fun a => [0%Q; 0%Q; fst a; snd a]) (anchors L)))))
    as (n & Hn & Hlt).
  - rewrite length_map, length_combine, length_replicate, length_map, Hlen. lia.
  - exists n. split; [exact Hn|].
    rewrite length_map, length_combine, length_replicate, length_map, Hlen in Hlt.
    lia.
Qed.

Lemma assign_gt_shaped L s b gt t t' nc :
  shaped5 (sB s) (sA s) (sgh s) (sgw s) nc t ->
  assign_gt L s b gt t = ok t' ->
  shaped5 (sB s) (sA s) (sgh s) (sgw s) nc t'.
Proof.
  intros Ht H. unfold assign_gt in H.
  apply bind_ok_inv in H as (n & _ & H).
  apply bind_ok_inv in H as (t1 & H1 & H).
  apply bind_ok_inv in H as (t2 & H2 & H).
  apply bind_ok_inv in H as (t3 & H3 & H).
  apply bind_ok_inv in H as (t4 & H4 & H).
  apply bind_ok_inv in H as (t5 & H5 & H).
  eauto 10 using set5_shaped.
Qed.

Lemma bind_failure {A B} (m : result A) (k : A -> result B) (e : failure) :
  (forall e', m = inl e' -> e' = OutOfBounds) ->
  (forall a e', k a = inl e' -> e' = OutOfBounds) ->
  bind m k = inl e -> e = OutOfBounds.
Proof.
  intros Hm Hk. destruct m as [e'|a]; simpl.
  - intros [= <-]. by apply Hm.
  - apply Hk.
Qed.

(** With as many anchors as the predictions have, and at least one, a
    ground-truth row can only fail as an index error. *)
Lemma assign_gt_failure L s b gt t e :
  length (anchors L) = sA s -> 0 < sA s ->
  assign_gt L s b gt t = inl e -> e = OutOfBounds.
Proof.
  intros Hlen Hpos. unfold assign_gt.
  destruct (best_anchor_ok L s gt Hlen Hpos) as (n & -> & _). simpl bind.
  repeat (apply bind_failure; [intros ?; apply set5_failure | intros ? ?]).
  apply set5_failure.
Qed.

Lemma assign_gt_edge L s b gt t nc :
  shaped5 (sB s) (sA s) (sgh s) (sgw s) nc t ->
  length (anchors L) = sA s -> 0 < sA s ->
  (gt_x gt == 1 \/ gt_y gt == 1)%Q ->
  assign_gt L s b gt t = raise OutOfBounds.
Proof.
  intros Ht Hlen Hpos Hedge. unfold assign_gt.
  destruct (best_anchor_ok L s gt Hlen Hpos) as (n & -> & _). simpl bind.
  destruct Hedge as [Hx|Hy].
  - rewrite (set5_oob_i _ _ _ _ _ _ _ _ _ _ _ _ Ht); [reflexivity|].
    rewrite (int_of_inject _ (Z.of_nat (sgw s))).
    + apply norm_index_size.
    + unfold cell_x. rewrite Hx. ring.
  - rewrite (set5_oob_j _ _ _ _ _ _ _ _ _ _ _ _ Ht); [reflexivity|].
    rewrite (int_of_inject _ (Z.of_nat (sgh s))).
    + apply norm_index_size.
    + unfold cell_y. rewrite Hy. ring.
Qed.

Lemma assign_image_shaped L s b gts t t' nc :
  shaped5 (sB s) (sA s) (sgh s) (sgw s) nc t ->
  assign_image L s b gts t = ok t' ->
  shaped5 (sB s) (sA s) (sgh s) (sgw s) nc t'.
Proof.
  revert t. induction gts as [|g gts IH]; simpl; intros t Ht H.
  - by injection H as <-.
  - apply bind_ok_inv in H as (t1 & H1 & H).
    eapply IH; [|exact H]. eapply assign_gt_shaped; eassumption.
Qed.

Lemma assign_image_failure L s b gts t e :
  length (anchors L) = sA s -> 0 < sA s ->
  assign_image L s b gts t = inl e -> e = OutOfBounds.
Proof.
  intros Hlen Hpos. revert t e.
  induction gts as [|g gts IH]; simpl; intros t e; [discriminate|].
  apply bind_failure; [intros ?; by apply assign_gt_failure | intros ? ?; apply IH].
Qed.

Lemma assign_image_edge L s b gts gt t nc :
  shaped5 (sB s) (sA s) (sgh s) (sgw s) nc t ->
  length (anchors L) = sA s -> 0 < sA s ->
  In gt gts -> (gt_x gt == 1 \/ gt_y gt == 1)%Q ->
  assign_image L s b gts t = raise OutOfBounds.
Proof.
  intros Ht Hlen Hpos Hin Hedge. revert t Ht.
  induction gts as [|g gts IH]; simpl; intros t Ht; [destruct Hin|].
  destruct (assign_gt L s b g t) as [e|t1] eqn:E; simpl.
  - by rewrite (assign_gt_failure _ _ _ _ _ _ Hlen Hpos E).
  - destruct Hin as [->|Hin].
    + rewrite (assign_gt_edge _ _ _ _ _ _ Ht Hlen Hpos Hedge) in E. discriminate.
    + apply IH; [assumption|]. eapply assign_gt_shaped; eassumption.
Qed.

Lemma assign_batch_edge L s bs targets b gts gt t nc :
  shaped5 (sB s) (sA s) (sgh s) (sgw s) nc t ->
  length (anchors L) = sA s -> 0 < sA s ->
  In b bs -> targets !! b = Some gts ->
  In gt gts -> (gt_x gt == 1 \/ gt_y gt == 1)%Q ->
  assign_batch L s bs targets t = raise OutOfBounds.
Proof.
  intros Ht Hlen Hpos Hb Hgts Hin Hedge. revert t Ht.
  induction bs as [|b' bs IH]; simpl; intros t Ht; [destruct Hb|].
  destruct (targets !! b') as [gts'|] eqn:E'; [|reflexivity].
  destruct (assign_image L s b' gts' t) as [e|t1] eqn:E; simpl.
  - by rewrite (assign_image_failure _ _ _ _ _ _ Hlen Hpos E).
  - destruct Hb as [->|Hb].
    + rewrite Hgts in E'. injection E' as <-.
      rewrite (assign_image_edge _ _ _ _ _ _ _ Ht Hlen Hpos Hin Hedge) in E.
      discriminate.
    + apply IH; [assumption|]. eapply assign_image_shaped; eassumption.
Qed.

(** C10.  A ground-truth row whose normalized center-x is 1 gets the
    column index [gi = grid_w], one whose center-y is 1 the row index
    [gj = grid_h]; the write is outside the target tensor and the call
    fails with an index error: no target tensor, no loss. *)
Theorem assignment_fails_on_unit_center L s targets b gts gt :
  length (anchors L) = sA s -> 0 < sA s ->
  b < sB s -> targets !! b = Some gts -> In gt gts ->
  (gt_x gt == 1 \/ gt_y gt == 1)%Q ->
  ((gt_x gt == 1)%Q -> int_of (cell_x s gt) = Z.of_nat (sgw s)) /\
  ((gt_y gt == 1)%Q -> int_of (cell_y s gt) = Z.of_nat (sgh s)) /\
  build_targets L s targets = raise OutOfBounds /\
  forall preds, forward L s preds targets = raise OutOfBounds.
Proof.
  intros Hlen Hpos Hb Hgts Hin Hedge.
  assert (Hbt : build_targets L s targets = raise OutOfBounds).
  { unfold build_targets.
    eapply assign_batch_edge; eauto using zeros5_shaped.
    apply in_seq. lia. }
  split; [|split; [|split]].
  - intros Hx. apply int_of_inject. unfold cell_x. rewrite Hx. ring.
  - intros Hy. apply int_of_inject. unfold cell_y. rewrite Hy. ring.
  - exact Hbt.
  - intros preds. unfold forward. rewrite Hbt. reflexivity.
Qed.

Lemma assignment_fails_on_unit_center_witness :
  build_targets (yolo_loss_default [(1, 1); (2, 2); (3, 3)]%Q 3)
    (Shape 1 3 13 13) [[GT 2 1 (1 # 2) (1 # 10) (1 # 10)]]
  = raise OutOfBounds.
Proof.
  apply (assignment_fails_on_unit_center
           (yolo_loss_default [(1, 1); (2, 2); (3, 3)]%Q 3)
           (Shape 1 3 13 13) [[GT 2 1 (1 # 2) (1 # 10) (1 # 10)]]
           0 [GT 2 1 (1 # 2) (1 # 10) (1 # 10)]
           (GT 2 1 (1 # 2) (1 # 10) (1 # 10))).
  - reflexivity.
  - simpl. lia.
  - simpl. lia.
  - reflexivity.
  - left. reflexivity.
  - left. reflexivity.
Defined.

(** What one ground-truth row leaves in the tensor when its cell exists:
    the six writes land in row [(b, n, j, i)], the class write last, and
    nothing else changes. *)
Lemma assign_gt_written L s b gt t n i j k :
  best_anchor L s gt = ok n ->
  int_of (cell_x s gt) = Z.of_nat i ->
  int_of (cell_y s gt) = Z.of_nat j ->
  int_of (gt_cls gt) = Z.of_nat k ->
  k < num_classes L ->
  (forall c, c < 5 + num_classes L -> is_Some (get5 t b n j i c)) ->
  exists t',
    assign_gt L s b gt t = ok t' /\
    forall b' n' j' i' c',
      get5 t' b' n' j' i' c' =
      if decide (b' = b /\ n' = n /\ j' = j /\ i' = i) then
        if decide (c' = 5 + k) then Some 1%Q
        else match c' with
             | 0 => Some (cell_x s gt - inject_Z (Z.of_nat i))%Q
             | 1 => Some (cell_y s gt - inject_Z (Z.of_nat j))%Q
             | 2 => Some (box_w s gt)
             | 3 => Some (box_h s gt)
             | 4 => Some 1%Q
             | _ => get5 t b n j i c'
             end
      else get5 t b' n' j' i' c'.
Proof.
  intros Hn Hi Hj Hk Hlt Hcell. unfold assign_gt.
  rewrite Hn, Hi, Hj, Hk. simpl bind. cbv zeta.
  destruct (set5_get5 t b n j i 4 1%Q) as (t1 & E1 & G1);
    [apply Hcell; lia|].
  change (Z.of_nat 4) with 4%Z in E1. rewrite E1. simpl bind.
  destruct (set5_get5 t1 b n j i 0 (cell_x s gt - inject_Z (Z.of_nat i))%Q)
    as (t2 & E2 & G2).
  { rewrite G1. case_decide; [eauto|]. apply Hcell; lia. }
  change (Z.of_nat 0) with 0%Z in E2. rewrite E2. simpl bind.
  destruct (set5_get5 t2 b n j i 1 (cell_y s gt - inject_Z (Z.of_nat j))%Q)
    as (t3 & E3 & G3).
  { rewrite G2, G1. repeat case_decide; eauto. apply Hcell; lia. }
  change (Z.of_nat 1) with 1%Z in E3. rewrite E3. simpl bind.
  destruct (set5_get5 t3 b n j i 2 (box_w s gt)) as (t4 & E4 & G4).
  { rewrite G3, G2, G1. repeat case_decide; eauto. apply Hcell; lia. }
  change (Z.of_nat 2) with 2%Z in E4. rewrite E4. simpl bind.
  destruct (set5_get5 t4 b n j i 3 (box_h s gt)) as (t5 & E5 & G5).
  { rewrite G4, G3, G2, G1. repeat case_decide; eauto. apply Hcell; lia. }
  change (Z.of_nat 3) with 3%Z in E5. rewrite E5. simpl bind.
  destruct (set5_get5 t5 b n j i (5 + k) 1%Q) as (t6 & E6 & G6).
  { rewrite G5, G4, G3, G2, G1. repeat case_decide; eauto. apply Hcell; lia. }
  rewrite Nat2Z.inj_add in E6. change (Z.of_nat 5) with 5%Z in E6.
  exists t6. split; [exact E6|].
  intros b' n' j' i' c'. rewrite G6, G5, G4, G3, G2, G1.
  destruct (decide (b' = b /\ n' = n /\ j' = j /\ i' = i)) as [(-> & -> & -> & ->)|N].
  - destruct (decide (c' = 5 + k)) as [->|Nc].
    + rewrite decide_True by done. reflexivity.
    + rewrite decide_False by (intros (_ & _ & _ & _ & ?); done).
      destruct c' as [|[|[|[|[|c']]]]];
        repeat (first [rewrite decide_True by done
                      |rewrite decide_False by (intros (_ & _ & _ & _ & ?); lia)]);
        reflexivity.
  - repeat (rewrite decide_False by (intros (? & ? & ? & ? & _); apply N; done)).
    reflexivity.
Qed.

Lemma assign_batch_skip L s bs targets t :
  (forall b, In b bs -> targets !! b = Some []) ->
  assign_batch L s bs targets t = ok t.
Proof.
  induction bs as [|b bs IH]; simpl; intros H; [reflexivity|].
  rewrite (H b) by (by left). simpl. apply IH. intros b' Hb'. apply H. by right.
Qed.

Lemma assign_batch_single L s bs targets b0 gt t t' :
  NoDup bs -> In b0 bs ->
  (forall b, In b bs -> b <> b0 -> targets !! b = Some []) ->
  targets !! b0 = Some [gt] ->
  assign_gt L s b0 gt t = ok t' ->
  assign_batch L s bs targets t = ok t'.
Proof.
  intros Hnd Hin Hothers Hb0 Hgt.
  induction bs as [|b bs IH]; simpl; [destruct Hin|].
  apply NoDup_cons in Hnd as [Hnotin Hnd].
  destruct (decide (b = b0)) as [->|Hne].
  - rewrite Hb0. simpl. rewrite Hgt. simpl.
    apply assign_batch_skip. intros b Hb. apply Hothers; [by right|].
    intros ->. apply Hnotin. by apply list_elem_of_In.
  - rewrite (Hothers b) by (by left || done). simpl.
    destruct Hin as [->|Hin]; [done|].
    apply IH; [done|done|]. intros b' Hb'. apply Hothers. by right.
Qed.

(** C6.  With as many anchors as the predictions have (at least one), a
    grid of positive height and width, and exactly one ground-truth row
    in the batch, its center in [0,1) on both axes and its class below
    the number of classes, the target tensor has objectness 1 at exactly
    one position and 0 at every other. *)
Theorem single_box_objectness L s targets b0 gt :
  length (anchors L) = sA s -> 0 < sA s -> 0 < sgh s -> 0 < sgw s ->
  b0 < sB s ->
  targets !! b0 = Some [gt] ->
  (forall b, b < sB s -> b <> b0 -> targets !! b = Some []) ->
  (0 <= gt_x gt)%Q -> (gt_x gt < 1)%Q ->
  (0 <= gt_y gt)%Q -> (gt_y gt < 1)%Q ->
  (0 <= int_of (gt_cls gt) < Z.of_nat (num_classes L))%Z ->
  exists t n j i,
    build_targets L s targets = ok t /\
    n < sA s /\ j < sgh s /\ i < sgw s /\
    forall b' n' j' i',
      b' < sB s -> n' < sA s -> j' < sgh s -> i' < sgw s ->
      get5 t b' n' j' i' 4 =
      Some (if decide (b' = b0 /\ n' = n /\ j' = j /\ i' = i) then 1%Q else 0%Q).
Proof.
  intros Hlen HA Hgh Hgw Hb0 Ht0 Hothers Hx0 Hx1 Hy0 Hy1 Hcls.
  destruct (best_anchor_ok L s gt Hlen HA) as (n & Hn & Hnlt).
  destruct (scaled_in_grid _ _ Hx0 Hx1 Hgw) as [Hgx0 Hgx1].
  destruct (scaled_in_grid _ _ Hy0 Hy1 Hgh) as [Hgy0 Hgy1].
  destruct (int_of_range _ _ Hgx0 Hgx1) as (i & Hi & Hilt).
  destruct (int_of_range _ _ Hgy0 Hgy1) as (j & Hj & Hjlt).
  set (t0 := zeros5 (sB s) (sA s) (sgh s) (sgw s) (5 + num_classes L)).
  destruct (assign_gt_written L s b0 gt t0 n i j (Z.to_nat (int_of (gt_cls gt))))
    as (t & Et & Gt); try assumption; try lia.
  { intros c Hc. unfold t0. rewrite get5_zeros by assumption. eauto. }
  exists t, n, j, i. split; [|split; [|split; [|split]]]; try assumption.
  - unfold build_targets. fold t0.
    eapply assign_batch_single; try eassumption.
    + apply NoDup_seq.
    + apply in_seq. lia.
    + intros b Hb Hne. apply Hothers; [|assumption]. apply in_seq in Hb. lia.
  - intros b' n' j' i' Hb' Hn' Hj' Hi'. rewrite Gt.
    case_decide as Hd.
    + rewrite decide_False by lia. reflexivity.
    + unfold t0. rewrite get5_zeros by (assumption || lia). reflexivity.
Qed.

Lemma single_box_objectness_witness :
  exists t n j i,
    build_targets (yolo_loss_default [(1, 1); (2, 2); (3, 3)]%Q 3)
      (Shape 2 3 13 13)
      [[]; [GT 0 (1 # 4) (3 # 4) (1 # 5) (1 # 5)]] = ok t /\
    n < 3 /\ j < 13 /\ i < 13 /\
    forall b' n' j' i',
      b' < 2 -> n' < 3 -> j' < 13 -> i' < 13 ->
      get5 t b' n' j' i' 4 =
      Some (if decide (b' = 1 /\ n' = n /\ j' = j /\ i' = i) then 1%Q else 0%Q).
Proof.
  apply (single_box_objectness
           (yolo_loss_default [(1, 1); (2, 2); (3, 3)]%Q 3)
           (Shape 2 3 13 13)
           [[]; [GT 0 (1 # 4) (3 # 4) (1 # 5) (1 # 5)]]
           1 (GT 0 (1 # 4) (3 # 4) (1 # 5) (1 # 5))).
  - reflexivity.
  - simpl. lia.
  - simpl. lia.
  - simpl. lia.
  - simpl. lia.
  - reflexivity.
  - intros [|[|b]] Hb Hne; simpl in *; [reflexivity|lia|lia].
  - discriminate.
  - reflexivity.
  - discriminate.
  - reflexivity.
  - simpl. split; [discriminate|reflexivity].
Defined.

(** The 13x13 scenario as the code runs it, for any number of classes
    from 3 on and any weights.  With the anchors (1,1), (2,2), (3,3) and
    one ground-truth row of center (0.5,0.5), size (0.1,0.1) and class 2,
    the candidate box compared with the anchors is
    centered at the offset (0.5,0.5) within the cell and has size
    (1.3,1.3); against the zero-centered anchors the largest IoU is that
    of anchor 1.  The row is written at anchor 1, cell (6,6): offset
    (0.5,0.5), size (1.3,1.3), objectness 1, class vector one-hot at
    index 2; objectness is 0 everywhere else. *)
Theorem scenario_13x13 (C : nat) (lb lo ln lc : Q) :
  3 <= C ->
  let L := YOLOLoss [(1, 1); (2, 2); (3, 3)]%Q C lb lo ln lc in
  let s := Shape 1 3 13 13 in
  let gt := GT 2 (1 # 2) (1 # 2) (1 # 10) (1 # 10) in
  candidate_box s gt = [1 # 2; 1 # 2; 13 # 10; 13 # 10]%Q /\
  best_anchor L s gt = ok 1 /\
  exists t,
    build_targets L s [[gt]] = ok t /\
    (forall n j i, n < 3 -> j < 13 -> i < 13 ->
       get5 t 0 n j i 4 =
       Some (if decide (n = 1 /\ j = 6 /\ i = 6) then 1%Q else 0%Q)) /\
    get5 t 0 1 6 6 0 = Some (1 # 2)%Q /\
    get5 t 0 1 6 6 1 = Some (1 # 2)%Q /\
    get5 t 0 1 6 6 2 = Some (13 # 10)%Q /\
    get5 t 0 1 6 6 3 = Some (13 # 10)%Q /\
    (forall c, c < C ->
       get5 t 0 1 6 6 (5 + c) = Some (if decide (c = 2) then 1%Q else 0%Q)).
Proof.
  intros HC L s gt.
  assert (Hbest : best_anchor L s gt = ok 1) by (vm_compute; reflexivity).
  split; [vm_compute; reflexivity|]. split; [exact Hbest|].
  set (t0 := zeros5 1 3 13 13 (5 + C)).
  destruct (assign_gt_written L s 0 gt t0 1 6 6 2) as (t & Et & Gt).
  { exact Hbest. }
  { vm_compute. reflexivity. }
  { vm_compute. reflexivity. }
  { vm_compute. reflexivity. }
  { simpl. lia. }
  { intros c Hc. unfold t0. rewrite get5_zeros by (assumption || lia). eauto. }
  exists t. split; [|split; [|split; [|split; [|split; [|split]]]]].
  - unfold build_targets. fold t0.
    apply (assign_batch_single L s _ _ 0 gt t0 t).
    + apply NoDup_seq.
    + left. reflexivity.
    + intros b [<-|[]] Hne. congruence.
    + reflexivity.
    + exact Et.
  - intros n j i Hn Hj Hi. rewrite Gt.
    destruct (decide (0 = 0 /\ n = 1 /\ j = 6 /\ i = 6)) as [(_ & -> & -> & ->)|N].
    + destruct (decide (4 = 5 + 2)) as [E|_]; [discriminate E|].
      destruct (decide (1 = 1 /\ 6 = 6 /\ 6 = 6)) as [_|N]; [reflexivity|].
      exfalso. apply N. repeat split.
    + destruct (decide (n = 1 /\ j = 6 /\ i = 6)) as [(-> & -> & ->)|_].
      { exfalso. apply N. repeat split. }
      unfold t0. rewrite get5_zeros by lia. reflexivity.
  - rewrite Gt. vm_compute. reflexivity.
  - rewrite Gt. vm_compute. reflexivity.
  - rewrite Gt. vm_compute. reflexivity.
  - rewrite Gt. vm_compute. reflexivity.
  - intros c Hc. rewrite Gt.
    destruct (decide (0 = 0 /\ 1 = 1 /\ 6 = 6 /\ 6 = 6)) as [_|N];
      [|exfalso; apply N; repeat split].
    destruct (decide (c = 2)) as [->|Nc].
    + destruct (decide (5 + 2 = 5 + 2)) as [_|N]; [reflexivity|].
      exfalso. apply N. reflexivity.
    + destruct (decide (5 + c = 5 + 2)) as [E|_]; [lia|].
      change (5 + c) with (S (S (S (S (S c))))).
      unfold t0. rewrite get5_zeros by lia. reflexivity.
Qed.

Lemma scenario_13x13_witness :
  exists t,
    build_targets (yolo_loss_default [(1, 1); (2, 2); (3, 3)]%Q 3)
      (Shape 1 3 13 13) [[GT 2 (1 # 2) (1 # 2) (1 # 10) (1 # 10)]] = ok t /\
    get5 t 0 1 6 6 4 = Some 1%Q.
Proof.
  destruct (scenario_13x13 3 5 1 (1 # 2) 1 (le_n 3))
    as (_ & _ & t & Ht & Hobj & _).
  exists t. split; [exact Ht|]. apply (Hobj 1 6 6); lia.
Defined.

(** C1 (the code departs from it).  In the scenario, with three classes
    and the default weights, the code selects anchor 1 and leaves
    objectness 0 at anchor 0, cell (6,6), where the claim has anchor 0.
    The code sets out to find the anchor that fits the box best, the
    anchors being boxes centered at (0,0), but the box it compares is
    centered at the offset within the cell, (0.5,0.5).  A zero-centered
    box of the same size (1.3,1.3) selects anchor 0, and so does the code
    itself when the same box has its center on a cell corner (center
    (6/13,6/13), offset (0,0)): the anchor selected for a box depends on
    where in its cell the center falls. *)
Theorem scenario_13x13_anchor_0_not_selected :
  let L := yolo_loss_default [(1, 1); (2, 2); (3, 3)]%Q 3 in
  let s := Shape 1 3 13 13 in
  let gt := GT 2 (1 # 2) (1 # 2) (1 # 10) (1 # 10) in
  let gt_corner := GT 2 (6 # 13) (6 # 13) (1 # 10) (1 # 10) in
  best_anchor L s gt = ok 1 /\
  spec_best_anchor L s gt = ok 0 /\
  Forall2 Qeq (candidate_box s gt_corner) [0; 0; 13 # 10; 13 # 10]%Q /\
  best_anchor L s gt_corner = ok 0 /\
  exists t,
    build_targets L s [[gt]] = ok t /\
    get5 t 0 0 6 6 4 = Some 0%Q /\
    get5 t 0 1 6 6 4 = Some 1%Q.
Proof.
  cbv zeta. split; [vm_compute; reflexivity|]. split; [vm_compute; reflexivity|].
  split; [repeat (constructor; [reflexivity|]); constructor|].
  split; [vm_compute; reflexivity|].
  let r := eval vm_compute in
      (build_targets (yolo_loss_default [(1, 1); (2, 2); (3, 3)]%Q 3)
         (Shape 1 3 13 13) [[GT 2 (1 # 2) (1 # 2) (1 # 10) (1 # 10)]]) in
  match r with inr ?t => exists t end.
  split; [vm_compute; reflexivity|].
  split; vm_compute; reflexivity.
Qed.

End AssignFacts.

(* ===================================================================== *)
(** * Facts about the loss *)
(* ===================================================================== *)

Module LossFacts.

Import Geometry Tensor Loss TensorFacts AssignFacts.

Lemma upd_Forall {A} (P : A -> Prop) k (f : A -> result A) l l' :
  Forall P l ->
  (forall x x', P x -> f x = ok x' -> P x') ->
  upd k f l = ok l' -> Forall P l'.
Proof.
  intros HP Hf H.
  apply upd_inv in H as (m & x & x' & _ & Hx & Hfx & ->).
  apply Forall_insert; [assumption|].
  eapply Hf; [|eassumption]. eapply Forall_lookup_1; eassumption.
Qed.

Lemma norm_index_nonneg (n : nat) (k : Z) (m : nat) :
  (0 <= k)%Z -> norm_index n k = Some m -> m = Z.to_nat k.
Proof.
  intros Hk. unfold norm_index.
  destruct (Z.leb_spec 0 k); [|lia].
  destruct (Z.ltb_spec k (Z.of_nat n)); simpl; [by intros [= <-]|].
  destruct (Z.ltb_spec k 0); [lia|].
  rewrite andb_false_r. discriminate.
Qed.

(** A write into a row keeps the objectness channel in {0, 1} when it
    stores 1, or goes to one of the channels 0 to 3. *)
Lemma row_write_01 (r r' : list Q) (c : Z) (v : Q) :
  row01 r -> v = 1%Q \/ (0 <= c < 4)%Z ->
  upd c (fun _ => ok v) r = ok r' -> row01 r'.
Proof.
  intros Hr Hv H.
  apply upd_inv in H as (m & x & x' & Hm & Hx & [= <-] & ->).
  unfold row01. destruct (decide (m = 4)) as [->|Hne].
  - rewrite list_lookup_insert_eq by (eapply lookup_lt_Some; eassumption).
    destruct Hv as [->|Hc]; [by right|].
    apply norm_index_nonneg in Hm; lia.
  - rewrite list_lookup_insert_ne by done. exact Hr.
Qed.

Lemma set5_obj01 t b n j i c v t' :
  obj01 t -> v = 1%Q \/ (0 <= c < 4)%Z ->
  set5 t b n j i c v = ok t' -> obj01 t'.
Proof.
  unfold obj01, set5. intros Ht Hv H.
  eapply upd_Forall; [exact Ht| |exact H].
  intros t4 t4' H4 E4. eapply upd_Forall; [exact H4| |exact E4].
  intros t3 t3' H3 E3. eapply upd_Forall; [exact H3| |exact E3].
  intros t2 t2' H2 E2. eapply upd_Forall; [exact H2| |exact E2].
  intros r r' Hr Er. eapply row_write_01; eassumption.
Qed.

Lemma zeros5_obj01 B A gh gw C : obj01 (zeros5 B A gh gw (5 + C)).
Proof.
  unfold obj01, zeros5. do 4 apply Forall_replicate.
  left. apply lookup_replicate_2. lia.
Qed.

Lemma assign_gt_obj01 L s b gt t t' :
  obj01 t -> assign_gt L s b gt t = ok t' -> obj01 t'.
Proof.
  intros Ht H. unfold assign_gt in H.
  apply bind_ok_inv in H as (n & _ & H).
  apply bind_ok_inv in H as (t1 & H1 & H).
  apply bind_ok_inv in H as (t2 & H2 & H).
  apply bind_ok_inv in H as (t3 & H3 & H).
  apply bind_ok_inv in H as (t4 & H4 & H).
  apply bind_ok_inv in H as (t5 & H5 & H).
  apply (set5_obj01 _ _ _ _ _ _ _ _ Ht) in H1; [|by left].
  apply (set5_obj01 _ _ _ _ _ _ _ _ H1) in H2; [|right; lia].
  apply (set5_obj01 _ _ _ _ _ _ _ _ H2) in H3; [|right; lia].
  apply (set5_obj01 _ _ _ _ _ _ _ _ H3) in H4; [|right; lia].
  apply (set5_obj01 _ _ _ _ _ _ _ _ H4) in H5; [|right; lia].
  apply (set5_obj01 _ _ _ _ _ _ _ _ H5) in H; [exact H|by left].
Qed.

Lemma assign_image_obj01 L s b gts t t' :
  obj01 t -> assign_image L s b gts t = ok t' -> obj01 t'.
Proof.
  revert t. induction gts as [|g gts IH]; simpl; intros t Ht H.
  - by injection H as <-.
  - apply bind_ok_inv in H as (t1 & H1 & H).
    eapply IH; [|exact H]. eapply assign_gt_obj01; eassumption.
Qed.

Lemma assign_batch_obj01 L s bs targets t t' :
  obj01 t -> assign_batch L s bs targets t = ok t' -> obj01 t'.
Proof.
  revert t. induction bs as [|b bs IH]; simpl; intros t Ht H.
  - by injection H as <-.
  - destruct (targets !! b) as [gts|]; [|discriminate].
    apply bind_ok_inv in H as (t1 & H1 & H).
    eapply IH; [|exact H]. eapply assign_image_obj01; eassumption.
Qed.

(** Every target tensor the code builds has objectness 0 or 1 in every
    row. *)
Lemma build_targets_obj01 L s targets t :
  build_targets L s targets = ok t -> obj01 t.
Proof.
  unfold build_targets. apply assign_batch_obj01, zeros5_obj01.
Qed.

Lemma Forall_concat_rows {A} (P : A -> Prop) (ls : list (list A)) :
  Forall (Forall P) ls -> Forall P (concat ls).
Proof.
  induction 1 as [|l ls Hl _ IH]; simpl; [constructor|].
  apply Forall_app; split; assumption.
Qed.

Lemma rows_obj01 t : obj01 t -> Forall row01 (rows t).
Proof.
  unfold obj01, rows. intros H.
  do 3 apply Forall_concat_rows. exact H.
Qed.

Lemma sq_sum_diff_self (l : list Q) : (sq_sum (zip_with Qminus l l) == 0)%Q.
Proof.
  unfold sq_sum. induction l as [|x l IH]; simpl; [reflexivity|].
  rewrite IH. unfold sq. ring.
Qed.

Lemma weighted_sq_sum_diff_self (w : Q) (l : list Q) :
  (sum_list (map (fun d => w * sq d) (zip_with Qminus l l)) == 0)%Q.
Proof.
  induction l as [|x l IH]; simpl; [reflexivity|].
  rewrite IH. unfold sq. ring.
Qed.

Lemma cell_loss_self (r : list Q) :
  row01 r -> exists ct, cell_loss r r = ok ct /\ terms_zero ct.
Proof.
  intros Hr. unfold cell_loss, channel, sub_bcast.
  rewrite !Nat.eqb_refl.
  destruct Hr as [H|H]; rewrite H; simpl bind;
    (eexists; split; [reflexivity|]);
    unfold terms_zero; simpl;
    rewrite !sq_sum_diff_self, weighted_sq_sum_diff_self;
    unfold sq; repeat split; ring.
Qed.

Lemma traverse_cell_loss_self (l : list (list Q)) :
  Forall row01 l ->
  exists terms,
    traverse (fun pt => cell_loss (fst pt) (snd pt)) (combine l l) = ok terms /\
    Forall terms_zero terms.
Proof.
  induction 1 as [|r l Hr _ (terms & Ht & Hz)]; simpl.
  - exists []. split; [reflexivity|constructor].
  - destruct (cell_loss_self r Hr) as (ct & -> & Hct). simpl.
    rewrite Ht. simpl. exists (ct :: terms). split; [reflexivity|].
    constructor; assumption.
Qed.

Lemma sum_terms_zero (terms : list cell_terms) :
  Forall terms_zero terms ->
  (sum_list (map box_term terms) == 0 /\
   sum_list (map obj_term terms) == 0 /\
   sum_list (map noobj_term terms) == 0 /\
   sum_list (map cls_term terms) == 0)%Q.
Proof.
  induction 1 as [|ct terms (H1 & H2 & H3 & H4) _ (I1 & I2 & I3 & I4)]; simpl.
  - repeat split; reflexivity.
  - rewrite H1, H2, H3, H4, I1, I2, I3, I4. repeat split; ring.
Qed.

Lemma total_loss_self L t :
  obj01 t -> exists loss, total_loss L t t = ok loss /\ (loss == 0)%Q.
Proof.
  intros Ht. unfold total_loss. rewrite Nat.eqb_refl.
  destruct (traverse_cell_loss_self (rows t) (rows_obj01 t Ht))
    as (terms & -> & Hz).
  simpl bind. eexists. split; [reflexivity|].
  destruct (sum_terms_zero terms Hz) as (-> & -> & -> & ->). ring.
Qed.

(** C5.  When the prediction tensor is the target tensor built from the
    ground-truth boxes, the loss is returned and equals 0, whatever the
    four weights. *)
Theorem loss_zero_on_targets L s targets t :
  build_targets L s targets = ok t ->
  exists loss, forward L s t targets = ok loss /\ (loss == 0)%Q.
Proof.
  intros H. unfold forward. rewrite H. simpl bind.
  apply total_loss_self. eapply build_targets_obj01, H.
Qed.

Lemma loss_zero_on_targets_witness :
  exists t loss,
    build_targets (yolo_loss_default [(1, 1); (2, 2)]%Q 2) (Shape 1 2 2 2)
      [[GT 1 (1 # 4) (3 # 4) (1 # 2) (1 # 2)]] = ok t /\
    forward (yolo_loss_default [(1, 1); (2, 2)]%Q 2) (Shape 1 2 2 2) t
      [[GT 1 (1 # 4) (3 # 4) (1 # 2) (1 # 2)]] = ok loss /\
    (loss == 0)%Q.
Proof.
  let r := eval vm_compute in
      (build_targets (yolo_loss_default [(1, 1); (2, 2)]%Q 2) (Shape 1 2 2 2)
         [[GT 1 (1 # 4) (3 # 4) (1 # 2) (1 # 2)]]) in
  match r with
  | inr ?t =>
      exists t;
      assert (Ht : build_targets (yolo_loss_default [(1, 1); (2, 2)]%Q 2)
                     (Shape 1 2 2 2)
                     [[GT 1 (1 # 4) (3 # 4) (1 # 2) (1 # 2)]] = ok t)
        by (vm_compute; reflexivity);
      destruct (loss_zero_on_targets _ _ _ _ Ht) as (loss & Hl & H0);
      exists loss; split; [exact Ht | split; [exact Hl | exact H0]]
  end.
Defined.

End LossFacts.

(* ===================================================================== *)
(** * Facts about non-maximum suppression *)
(* ===================================================================== *)

Module NMSFacts.

Import Geometry Tensor NMS.

Lemma traverse_Forall2 {A B} (f : A -> result B) (l : list A) (l' : list B) :
  traverse f l = ok l' -> Forall2 (fun x y => f x = ok y) l l'.
Proof.
  revert l'. induction l as [|x xs IH]; simpl; intros l' H.
  - injection H as <-. constructor.
  - apply bind_ok_inv in H as (y & Hy & H).
    apply bind_ok_inv in H as (ys & Hys & [= <-]).
    constructor; [exact Hy | apply IH, Hys].
Qed.

Lemma select_sublist {A} (mask : list bool) (l : list A) :
  sublist (select mask l) l.
Proof.
  revert l. induction mask as [|m ms IH]; intros [|x xs]; simpl;
    try (apply sublist_nil_l).
  destruct m; [apply sublist_skip|apply sublist_cons]; apply IH.
Qed.

Lemma select_none {A} (f : A -> bool) (l : list A) :
  Forall (fun x => f x = false) l -> select (map f l) l = [].
Proof.
  induction 1 as [|x l Hx _ IH]; simpl; [reflexivity|]. by rewrite Hx.
Qed.

Lemma Forall_of_sublist {A} (P : A -> Prop) (l1 l2 : list A) :
  sublist l1 l2 -> Forall P l2 -> Forall P l1.
Proof.
  induction 1 as [|x l1 l2 _ IH|x l1 l2 _ IH]; intros H.
  - constructor.
  - inversion H; subst. constructor; auto.
  - inversion H; subst. auto.
Qed.

Lemma pairs_of_sublist {A} (R : A -> A -> Prop) (l1 l2 : list A) :
  sublist l1 l2 -> ForallOrdPairs R l2 -> ForallOrdPairs R l1.
Proof.
  induction 1 as [|x l1 l2 Hs IH|x l1 l2 _ IH]; intros H.
  - constructor.
  - inversion H; subst. constructor; [|auto].
    eapply Forall_of_sublist; eassumption.
  - inversion H; subst. auto.
Qed.

Lemma pairs_lookup {A} (R : A -> A -> Prop) (l : list A) i j a b :
  ForallOrdPairs R l -> i < j ->
  l !! i = Some a -> l !! j = Some b -> R a b.
Proof.
  intros H. revert i j. induction H as [|x l Hx _ IH]; intros i j Hij Hi Hj.
  - discriminate.
  - destruct j as [|j]; [lia|]. destruct i as [|i]; simpl in *.
    + injection Hi as <-. eapply Forall_lookup_1; eassumption.
    + eapply (IH i j); [lia|assumption|assumption].
Qed.

(** ** The sort *)

Lemma insert_desc_Forall (P : detection -> Prop) c l :
  P c -> Forall P l -> Forall P (insert_desc c l).
Proof.
  intros Hc. induction 1 as [|d l Hd Hl IH]; simpl.
  - by constructor.
  - destruct (Qlt_le_dec (d_score c) (d_score d)); repeat constructor; auto.
Qed.

Lemma insert_desc_sorted c l :
  ForallOrdPairs by_score_desc l -> ForallOrdPairs by_score_desc (insert_desc c l).
Proof.
  induction 1 as [|d l Hd Hl IH]; simpl.
  - repeat constructor.
  - destruct (Qlt_le_dec (d_score c) (d_score d)) as [Hlt|Hle].
    + constructor; [|exact IH].
      apply insert_desc_Forall; [|exact Hd].
      unfold by_score_desc. lra.
    + constructor; [|by constructor].
      constructor; [exact Hle|].
      eapply Forall_impl; [exact Hd|].
      unfold by_score_desc. intros x Hx. lra.
Qed.

Lemma sort_desc_sorted l : ForallOrdPairs by_score_desc (sort_desc l).
Proof.
  induction l as [|c l IH]; simpl; [constructor|].
  by apply insert_desc_sorted.
Qed.

(** ** The loop *)

Lemma mask_passed thr best (l : list detection) (ious : list Q) :
  bbox_iou_rows eps_default (replicate (length l) (d_box best)) (map d_box l)
    = ok ious ->
  Forall (passed_mask thr best) (select (map (fun v => Qltb v thr) ious) l).
Proof.
  unfold bbox_iou_rows.
  rewrite length_replicate, length_map, Nat.eqb_refl.
  revert ious. induction l as [|x l IH]; intros ious H; simpl in H.
  - injection H as <-. constructor.
  - apply bind_ok_inv in H as (v & Hv & H).
    apply bind_ok_inv in H as (vs & Hvs & [= <-]).
    simpl. unfold Qltb at 1. destruct (Qlt_le_dec v thr) as [Hlt|_].
    + constructor; [by exists v | by apply IH].
    + by apply IH.
Qed.

(** What the loop returns: the rows already kept, then a subsequence of
    the candidates in which every later row passed the mask of every
    earlier one. *)
Lemma nms_loop_kept thr cands keep out :
  nms_loop thr cands keep = ok out ->
  exists kept,
    out = keep ++ kept /\ sublist kept cands /\
    ForallOrdPairs (passed_mask thr) kept.
Proof.
  funelim (nms_loop thr cands keep).
  - intros [= <-]. exists []. rewrite app_nil_r. repeat constructor.
  - intros [= <-]. exists [best]. split; [reflexivity|].
    split; [reflexivity|repeat constructor].
  - discriminate.
  - intros Hout.
    match goal with
    | IH : forall out, _ -> exists kept, _ |- _ =>
        destruct (IH _ Hout) as (kept & -> & Hsub & Hpairs)
    end.
    exists (best :: kept). split; [by rewrite <- app_assoc|]. split.
    + apply sublist_skip. etransitivity; [exact Hsub|apply select_sublist].
    + constructor; [|exact Hpairs].
      eapply Forall_of_sublist; [exact Hsub|].
      by apply mask_passed.
Qed.

(** The loop returns when every candidate box has four coordinates. *)
Lemma iou_rows_total (b : list Q) (l : list detection) :
  length b = 4 -> Forall (fun c => length (d_box c) = 4) l ->
  exists ious,
    bbox_iou_rows eps_default (replicate (length l) b) (map d_box l) = ok ious.
Proof.
  intros Hb Hl. unfold bbox_iou_rows.
  rewrite length_replicate, length_map, Nat.eqb_refl.
  induction Hl as [|x l Hx _ (ious & IH)]; simpl.
  - by exists [].
  - destruct (GeometryFacts.bbox_iou_total eps_default b (d_box x) Hb Hx)
      as (v & ->).
    simpl. rewrite IH. simpl. by eexists.
Qed.

Lemma nms_loop_total thr cands keep :
  Forall (fun c => length (d_box c) = 4) cands ->
  exists out, nms_loop thr cands keep = ok out.
Proof.
  funelim (nms_loop thr cands keep); intros Hc.
  - by eexists.
  - by eexists.
  - exfalso. inversion Hc as [|? ? Hb Hrest]; subst.
    destruct (iou_rows_total (d_box best) (r :: rs) Hb Hrest) as (ious & E).
    match goal with
    | Heq : bbox_iou_rows _ _ _ = inl _ |- _ => rewrite E in Heq; discriminate Heq
    end.
  - match goal with
    | IH : Forall _ _ -> exists out, _ |- _ => apply IH
    end.
    inversion Hc as [|? ? _ Hrest]; subst.
    eapply Forall_of_sublist; [apply select_sublist|exact Hrest].
Qed.

(** ** One image *)

Lemma row_candidate_total (r : list Q) :
  5 < length r ->
  exists c, row_candidate r = ok c /\ length (d_box c) = 4.
Proof.
  destruct r as [|x [|y [|w [|h [|o [|c0 cs]]]]]]; simpl; try lia.
  intros _. unfold row_candidate. simpl. eexists. split; reflexivity.
Qed.

Lemma traverse_exists {A B} (f : A -> result B) (P : B -> Prop) (l : list A) :
  Forall (fun x => exists y, f x = ok y /\ P y) l ->
  exists l', traverse f l = ok l' /\ Forall P l'.
Proof.
  induction 1 as [|x l (y & Hy & Py) _ (l' & IH & Pl')]; simpl.
  - exists []. by split.
  - rewrite Hy. simpl. rewrite IH. simpl. exists (y :: l'). split; [done|].
    by constructor.
Qed.

Lemma to_corners_total (c : detection) :
  length (d_box c) = 4 ->
  exists c', to_corners c = ok c' /\ length (d_box c') = 4.
Proof.
  destruct c as [[|x [|y [|w [|h [|? ?]]]]] sc cl]; simpl; try discriminate.
  intros _. unfold to_corners. simpl. eexists. split; reflexivity.
Qed.

(** The detections of one image are either none, or what the loop makes
    of the sorted corner-form candidates. *)
Lemma nms_image_inv conf iou nc pred dets :
  nms_image conf iou nc pred = ok dets ->
  dets = [] \/
  exists corners, nms_loop iou (sort_desc corners) [] = ok dets.
Proof.
  unfold nms_image.
  destruct (Nat.ltb nc 5); [discriminate|].
  destruct (Nat.eqb nc 5); [discriminate|].
  intros H. apply bind_ok_inv in H as (cands & _ & H).
  destruct (select _ cands) as [|k kept].
  - left. by injection H as <-.
  - right. apply bind_ok_inv in H as (corners & _ & H). by exists corners.
Qed.

(** On a tensor of rows of [nc > 5] channels the decoder returns. *)
Lemma nms_image_total conf iou nc pred :
  5 < nc ->
  Forall (fun r => length r = nc) (concat (concat pred)) ->
  exists dets, nms_image conf iou nc pred = ok dets.
Proof.
  intros Hnc Hrows. unfold nms_image.
  destruct (Nat.ltb_spec nc 5); [lia|].
  destruct (Nat.eqb_spec nc 5); [lia|].
  destruct (traverse_exists row_candidate (fun c => length (d_box c) = 4)
              (concat (concat pred))) as (cands & -> & Hc).
  { eapply Forall_impl; [exact Hrows|]. intros r Hr. cbv beta in Hr.
    apply row_candidate_total. lia. }
  simpl bind.
  pose proof (Forall_of_sublist _ _ _
                (select_sublist
                   (map (fun c => Qltb conf (d_score c)) cands) cands) Hc) as Hk.
  destruct (select _ cands) as [|k kept]; [by eexists|].
  destruct (traverse_exists to_corners (fun c => length (d_box c) = 4) (k :: kept))
    as (corners & -> & Hcorners).
  { eapply Forall_impl; [exact Hk|]. intros c. apply to_corners_total. }
  simpl bind. apply nms_loop_total.
  unfold sort_desc. induction Hcorners; simpl; [constructor|].
  by apply insert_desc_Forall.
Qed.

(** C9.  The detections returned for an image are in descending order of
    score: a detection never scores above one that comes before it. *)
Theorem nms_output_descending conf iou nc pred dets :
  nms_image conf iou nc pred = ok dets ->
  forall i j di dj,
    i < j -> dets !! i = Some di -> dets !! j = Some dj ->
    (d_score dj <= d_score di)%Q.
Proof.
  intros H i j di dj Hij Hi Hj.
  apply nms_image_inv in H as [->|(corners & H)]; [discriminate|].
  apply nms_loop_kept in H as (kept & -> & Hsub & _). simpl in Hi, Hj.
  apply (pairs_lookup by_score_desc kept i j di dj); try assumption.
  eapply pairs_of_sublist; [exact Hsub|apply sort_desc_sorted].
Qed.

Lemma nms_output_descending_witness :
  exists d1 d2,
    nms_image (1 # 2) (1 # 2) 6
      [[[ [1; 1; 1; 1; 1; 6 # 10]; [5; 5; 1; 1; 1; 9 # 10] ]]]%Q
    = ok [d1; d2] /\
    (d_score d2 <= d_score d1)%Q.
Proof.
  let r := eval vm_compute in
      (nms_image (1 # 2) (1 # 2) 6
         [[[ [1; 1; 1; 1; 1; 6 # 10]; [5; 5; 1; 1; 1; 9 # 10] ]]]%Q) in
  match r with
  | inr [?d1; ?d2] =>
      exists d1, d2;
      assert (H : nms_image (1 # 2) (1 # 2) 6
                    [[[ [1; 1; 1; 1; 1; 6 # 10]; [5; 5; 1; 1; 1; 9 # 10] ]]]%Q
                  = ok [d1; d2]) by (vm_compute; reflexivity);
      split; [exact H|];
      apply (nms_output_descending _ _ _ _ _ H 0 1 d1 d2);
        [lia | reflexivity | reflexivity]
  end.
Defined.

(** The separation the loop does enforce: of two detections returned,
    the later one passed the mask of the earlier one, that is, the IoU
    [bbox_iou] computed for the pair was below the threshold. *)
Lemma nms_output_passed_mask conf iou nc pred dets :
  nms_image conf iou nc pred = ok dets ->
  forall i j di dj,
    i < j -> dets !! i = Some di -> dets !! j = Some dj ->
    passed_mask iou di dj.
Proof.
  intros H i j di dj Hij Hi Hj.
  apply nms_image_inv in H as [->|(corners & H)]; [discriminate|].
  apply nms_loop_kept in H as (kept & -> & _ & Hpairs). simpl in Hi, Hj.
  by apply (pairs_lookup (passed_mask iou) kept i j di dj).
Qed.

(** C2 (the code departs from it).  Two candidates with center-form
    boxes (0.5,0.5,1,1) and (0.7,0.5,0.6,1), scores 0.9 and 0.8: their
    corner-form boxes (0,0,1,1) and (0.4,0,1,1) overlap with IoU
    0.6/(1+eps) > 0.5, yet both are returned, because the loop's
    [bbox_iou] converts the corner-form boxes once more and finds an IoU
    below 0.5. *)
Theorem nms_keeps_overlapping_pair :
  exists d1 d2 u v,
    nms_image (1 # 2) (1 # 2) 6
      [[[ [1 # 2; 1 # 2; 1; 1; 1; 9 # 10];
          [7 # 10; 1 # 2; 3 # 5; 1; 1; 8 # 10] ]]]%Q
    = ok [d1; d2] /\
    iou_xyxy eps_default (d_box d1) (d_box d2) = ok v /\
    (v == (3 # 5) / (1 + eps_default))%Q /\ (1 # 2 < v)%Q /\
    bbox_iou eps_default (d_box d1) (d_box d2) = ok u /\ (u < 1 # 2)%Q.
Proof.
  let r := eval vm_compute in
      (nms_image (1 # 2) (1 # 2) 6
         [[[ [1 # 2; 1 # 2; 1; 1; 1; 9 # 10];
             [7 # 10; 1 # 2; 3 # 5; 1; 1; 8 # 10] ]]]%Q) in
  match r with
  | inr [?d1; ?d2] =>
      let u := eval vm_compute in
          (match bbox_iou eps_default (d_box d1) (d_box d2) with
           | inr u => u | inl _ => 0%Q end) in
      let v := eval vm_compute in
          (match iou_xyxy eps_default (d_box d1) (d_box d2) with
           | inr v => v | inl _ => 0%Q end) in
      exists d1, d2, u, v
  end.
  repeat split; vm_compute; reflexivity.
Qed.

(** ** Thresholds above every score *)

Lemma mask_none conf (flat : list (list Q)) (cands : list detection) :
  Forall2 (fun r c => row_candidate r = ok c) flat cands ->
  (forall r c, In r flat -> row_candidate r = ok c -> (d_score c <= conf)%Q) ->
  Forall (fun c => Qltb conf (d_score c) = false) cands.
Proof.
  induction 1 as [|r c flat cands Hrc _ IH]; intros Hscore; constructor.
  - unfold Qltb. destruct (Qlt_le_dec conf (d_score c)) as [Hlt|_]; [|reflexivity].
    exfalso. apply (Qlt_not_le _ _ Hlt).
    eapply Hscore; [|exact Hrc]. by left.
  - apply IH. intros r' c' Hr'. apply Hscore. by right.
Qed.

(** C4 (as the code has it).  With [conf_threshold = 1.1] the decoder
    returns the empty list for every prediction tensor with at least one
    class channel in which no candidate's score, objectness times best
    class score, exceeds 1.1. *)
Theorem nms_threshold_1_1 iou nc pred :
  5 < nc ->
  Forall (fun r => length r = nc) (concat (concat pred)) ->
  (forall r c, In r (concat (concat pred)) -> row_candidate r = ok c ->
               (d_score c <= 11 # 10)%Q) ->
  nms_image (11 # 10) iou nc pred = ok [].
Proof.
  intros Hnc Hrows Hscore. unfold nms_image.
  destruct (Nat.ltb_spec nc 5); [lia|].
  destruct (Nat.eqb_spec nc 5); [lia|].
  destruct (traverse_exists row_candidate (fun _ => True) (concat (concat pred)))
    as (cands & Hc & _).
  { eapply Forall_impl; [exact Hrows|]. intros r Hr. cbv beta in Hr.
    destruct (row_candidate_total r) as (c & Hcand & _); [lia|]. by exists c. }
  rewrite Hc. simpl bind.
  rewrite select_none; [reflexivity|].
  eapply mask_none; [apply traverse_Forall2, Hc|exact Hscore].
Qed.

Lemma nms_threshold_1_1_witness :
  nms_image (11 # 10) (1 # 2) 7
    [[[ [1; 1; 1; 1; 1; 6 # 10; 1]; [5; 5; 1; 1; 9 # 10; 1; 3 # 10] ]]]%Q
  = ok [].
Proof.
  apply (nms_threshold_1_1 (1 # 2) 7
           [[[ [1; 1; 1; 1; 1; 6 # 10; 1]; [5; 5; 1; 1; 9 # 10; 1; 3 # 10] ]]]%Q).
  - lia.
  - repeat constructor.
  - intros r c Hin Hr. simpl in Hin.
    destruct Hin as [<-|[<-|[]]]; vm_compute in Hr; injection Hr as <-;
      vm_compute; discriminate.
Defined.

(** C4 (as stated, refuted).  Objectness and class scores are raw
    network outputs: one candidate with objectness 2 and class score 1
    scores 2 > 1.1 and is returned. *)
Lemma nms_threshold_1_1_nonempty :
  nms_image (11 # 10) (1 # 2) 6 [[[ [0; 0; 1; 1; 2; 1] ]]]%Q
  = ok [Det [-1 # 2; -1 # 2; 1 # 2; 1 # 2]%Q 2 0].
Proof. vm_compute. reflexivity. Qed.

End NMSFacts.

(* ===================================================================== *)
(** * More about the geometry *)
(* ===================================================================== *)

Module GeometryMore.

Import Geometry GeometryFacts.
Local Open Scope Q_scope.

Lemma overlap_nonneg (lo1 hi1 lo2 hi2 : Q) : 0 <= overlap lo1 hi1 lo2 hi2.
Proof. apply clamp_min_nonneg. Qed.

Lemma overlap_apart (lo1 hi1 lo2 hi2 : Q) :
  hi1 <= lo2 -> overlap lo1 hi1 lo2 hi2 == 0.
Proof.
  intros H. unfold overlap. apply clamp_min_nonpos.
  pose proof (Q.le_min_l hi1 hi2). pose proof (Q.le_max_r lo1 lo2). lra.
Qed.

(** The edges of a center-form box along one axis. *)
Lemma edges_width (c w : Q) : c + w / 2 - (c - w / 2) == w.
Proof. field. Qed.

Lemma clamp_edges (c w : Q) :
  clamp_min 0 (c + w / 2 - (c - w / 2)) == clamp_min 0 w.
Proof. apply clamp_min_compat, edges_width. Qed.

(** The parts of the value [bbox_iou] returns on two four-coordinate
    boxes: intersection, the two areas, and how they compare. *)
Lemma bbox_iou_parts (eps x1 y1 w1 h1 x2 y2 w2 h2 : Q) :
  let inter :=
    overlap (x1 - w1 / 2) (x1 + w1 / 2) (x2 - w2 / 2) (x2 + w2 / 2)
    * overlap (y1 - h1 / 2) (y1 + h1 / 2) (y2 - h2 / 2) (y2 + h2 / 2) in
  let area1 := clamp_min 0 w1 * clamp_min 0 h1 in
  let area2 := clamp_min 0 w2 * clamp_min 0 h2 in
  exists v,
    bbox_iou eps [x1; y1; w1; h1] [x2; y2; w2; h2] = ok v /\
    v == inter / (area1 + area2 - inter + eps) /\
    0 <= inter /\ inter <= area1 /\ inter <= area2.
Proof.
  intros inter area1 area2. rewrite bbox_iou_unfold. cbv zeta.
  eexists. split; [reflexivity|].
  fold inter. rewrite !clamp_edges. fold area1 area2.
  split; [reflexivity|].
  split; [apply Qmult_le_0_compat; apply overlap_nonneg|].
  split.
  - apply mult_le_mult; try apply overlap_nonneg.
    + rewrite <- (clamp_edges x1 w1). apply overlap_le_l.
    + rewrite <- (clamp_edges y1 h1). apply overlap_le_l.
  - apply mult_le_mult; try apply overlap_nonneg.
    + rewrite <- (clamp_edges x2 w2). apply overlap_le_r.
    + rewrite <- (clamp_edges y2 h2). apply overlap_le_r.
Qed.

(** The quotient lies in the unit interval.  The upper bound is stated
    as [<=]: it rests on [inter <= area1], [inter <= area2] and
    [0 <= eps] only, comparisons that rounding to nearest preserves,
    whereas the strict bound of exact arithmetic is lost in floating
    point once the areas absorb [eps]. *)
Lemma bbox_iou_in_unit (eps : Q) (b1 b2 : list Q) (v : Q) :
  0 < eps -> length b1 = 4%nat -> length b2 = 4%nat ->
  bbox_iou eps b1 b2 = ok v -> 0 <= v /\ v <= 1.
Proof.
  intros Heps H1 H2 Hv.
  destruct b1 as [|x1 [|y1 [|w1 [|h1 [|? ?]]]]]; try discriminate.
  destruct b2 as [|x2 [|y2 [|w2 [|h2 [|? ?]]]]]; try discriminate.
  destruct (bbox_iou_parts eps x1 y1 w1 h1 x2 y2 w2 h2)
    as (v' & Hv' & Ev & H0 & Ha1 & Ha2).
  rewrite Hv in Hv'. injection Hv' as <-. rewrite Ev.
  set (inter := overlap _ _ _ _ * overlap _ _ _ _) in *.
  set (a1 := clamp_min 0 w1 * clamp_min 0 h1) in *.
  set (a2 := clamp_min 0 w2 * clamp_min 0 h2) in *.
  split.
  - apply Qle_shift_div_l; lra.
  - apply Qle_shift_div_r; lra.
Qed.

(** X1.  With a positive [eps], the IoU of two four-coordinate boxes is
    at least 0 and at most 1. *)
Theorem bbox_iou_range (eps x1 y1 w1 h1 x2 y2 w2 h2 : Q) :
  0 < eps ->
  exists v,
    bbox_iou eps [x1; y1; w1; h1] [x2; y2; w2; h2] = ok v /\ 0 <= v /\ v <= 1.
Proof.
  intros Heps.
  destruct (bbox_iou_total eps [x1; y1; w1; h1] [x2; y2; w2; h2] eq_refl eq_refl)
    as (v & Hv).
  exists v. split; [exact Hv|].
  eapply bbox_iou_in_unit; [exact Heps| | |exact Hv]; reflexivity.
Qed.

Lemma bbox_iou_range_witness :
  exists v,
    bbox_iou eps_default [0; 0; 2; 2] [1; 1; 2; 2] = ok v /\ 0 <= v /\ v <= 1.
Proof. apply (bbox_iou_range eps_default 0 0 2 2 1 1 2 2). reflexivity. Defined.

(** X5.  Two boxes that do not overlap along the x axis, or along the y
    axis, edges allowed to touch, have IoU 0. *)
Theorem bbox_iou_apart (eps x1 y1 w1 h1 x2 y2 w2 h2 : Q) :
  x1 + w1 / 2 <= x2 - w2 / 2 \/ y1 + h1 / 2 <= y2 - h2 / 2 ->
  exists v,
    bbox_iou eps [x1; y1; w1; h1] [x2; y2; w2; h2] = ok v /\ v == 0.
Proof.
  intros Hapart.
  destruct (bbox_iou_parts eps x1 y1 w1 h1 x2 y2 w2 h2) as (v & Hv & Ev & _).
  exists v. split; [exact Hv|]. rewrite Ev.
  destruct Hapart as [H|H]; rewrite (overlap_apart _ _ _ _ H);
    unfold Qdiv; ring.
Qed.

Lemma bbox_iou_apart_witness :
  exists v, bbox_iou eps_default [0; 0; 2; 2] [2; 0; 2; 2] = ok v /\ v == 0.
Proof.
  apply (bbox_iou_apart eps_default 0 0 2 2 2 0 2 2). left. discriminate.
Defined.

End GeometryMore.

(* ===================================================================== *)
(** * More about indexed writes and target assignment *)
(* ===================================================================== *)

Module AssignMore.

Import Geometry Tensor Loss Validity TensorFacts AssignFacts.

Lemma norm_index_valid (n : nat) (k : Z) :
  is_Some (norm_index n k) <-> (- Z.of_nat n <= k < Z.of_nat n)%Z.
Proof.
  unfold norm_index.
  destruct (Z.leb_spec 0 k), (Z.ltb_spec k (Z.of_nat n)); simpl.
  - split; [lia|]. intros _. by eexists.
  - destruct (Z.ltb_spec k 0); [lia|]. rewrite andb_false_r.
    split; [intros [? ?]; discriminate|lia].
  - destruct (Z.leb_spec (- Z.of_nat n) k), (Z.ltb_spec k 0); simpl;
      try lia; (split; [try lia; intros [? ?]; discriminate|]);
      try lia; intros _; by eexists.
  - destruct (Z.leb_spec (- Z.of_nat n) k), (Z.ltb_spec k 0); simpl;
      try lia; (split; [try lia; intros [? ?]; discriminate|]);
      try lia; intros _; by eexists.
Qed.

Lemma norm_index_invalid (n : nat) (k : Z) :
  norm_index n k = None <-> (k < - Z.of_nat n \/ Z.of_nat n <= k)%Z.
Proof.
  pose proof (norm_index_valid n k) as H.
  destruct (norm_index n k) as [m|].
  - split; [discriminate|]. intros Hk.
    assert (is_Some (Some m)) as Hs by eauto. apply H in Hs. lia.
  - split; [|reflexivity]. intros _.
    destruct (Z_lt_dec k (- Z.of_nat n)); [by left|].
    destruct (Z_le_dec (Z.of_nat n) k); [by right|].
    assert (is_Some (@None nat)) as [? ?] by (apply H; lia). discriminate.
Qed.

Lemma norm_index_from_end (n : nat) (k : Z) :
  (- Z.of_nat n <= k < 0)%Z -> norm_index n k = Some (Z.to_nat (k + Z.of_nat n)).
Proof.
  intros H. unfold norm_index.
  destruct (Z.leb_spec 0 k); [lia|]. simpl.
  destruct (Z.leb_spec (- Z.of_nat n) k); [|lia].
  destruct (Z.ltb_spec k 0); [|lia]. reflexivity.
Qed.

Lemma upd_norm {A} (k : Z) (f : A -> result A) (l : list A) (m : nat) :
  norm_index (length l) k = Some m -> upd k f l = upd (Z.of_nat m) f l.
Proof.
  intros H. unfold upd. rewrite H.
  rewrite norm_index_nat by (eapply norm_index_lt; eassumption). reflexivity.
Qed.

Lemma upd_ext {A} (P : A -> Prop) (k : Z) (f g : A -> result A) (l : list A) :
  Forall P l -> (forall x, P x -> f x = g x) -> upd k f l = upd k g l.
Proof.
  intros HP Hfg. unfold upd.
  destruct (norm_index (length l) k) as [m|]; [|reflexivity].
  destruct (l !! m) as [x|] eqn:Hx; [|reflexivity].
  rewrite (Hfg x); [reflexivity|]. eapply Forall_lookup_1; eassumption.
Qed.

(** On a tensor of known shape a write depends on its indices only
    through the positions they denote. *)
Lemma set5_renorm B A gh gw nc t b n j i c v b' n' j' i' c' :
  shaped5 B A gh gw nc t ->
  norm_index B b = Some b' -> norm_index A n = Some n' ->
  norm_index gh j = Some j' -> norm_index gw i = Some i' ->
  norm_index nc c = Some c' ->
  set5 t b n j i c v =
  set5 t (Z.of_nat b') (Z.of_nat n') (Z.of_nat j') (Z.of_nat i') (Z.of_nat c') v.
Proof.
  unfold shaped5, set5. intros [Hlen Ht] Hb Hn Hj Hi Hc.
  rewrite (upd_norm b _ t b') by (by rewrite Hlen).
  eapply upd_ext; [exact Ht|]. intros t4 [Hlen4 H4].
  rewrite (upd_norm n _ t4 n') by (by rewrite Hlen4).
  eapply upd_ext; [exact H4|]. intros t3 [Hlen3 H3].
  rewrite (upd_norm j _ t3 j') by (by rewrite Hlen3).
  eapply upd_ext; [exact H3|]. intros t2 [Hlen2 H2].
  rewrite (upd_norm i _ t2 i') by (by rewrite Hlen2).
  eapply upd_ext; [exact H2|]. intros r Hr. cbv beta in Hr.
  apply upd_norm. by rewrite Hr.
Qed.

Lemma shaped5_get5 B A gh gw nc t b n j i c :
  shaped5 B A gh gw nc t ->
  b < B -> n < A -> j < gh -> i < gw -> c < nc ->
  is_Some (get5 t b n j i c).
Proof.
  unfold shaped5, get5. intros [Hlen Ht] Hb Hn Hj Hi Hc.
  destruct (lookup_lt_is_Some_2 t b) as [t4 E4]; [lia|]. rewrite E4.
  destruct (Forall_lookup_1 _ _ _ _ Ht E4) as [Hlen4 H4].
  destruct (lookup_lt_is_Some_2 t4 n) as [t3 E3]; [lia|]. rewrite E3.
  destruct (Forall_lookup_1 _ _ _ _ H4 E3) as [Hlen3 H3].
  destruct (lookup_lt_is_Some_2 t3 j) as [t2 E2]; [lia|]. rewrite E2.
  destruct (Forall_lookup_1 _ _ _ _ H3 E2) as [Hlen2 H2].
  destruct (lookup_lt_is_Some_2 t2 i) as [r E1]; [lia|]. rewrite E1.
  pose proof (Forall_lookup_1 _ _ _ _ H2 E1) as Hr. cbv beta in Hr.
  apply lookup_lt_is_Some_2. lia.
Qed.

(** A write at valid indices, negative ones included, succeeds, keeps the
    shape, and changes the one entry the indices denote. *)
Lemma set5_valid B A gh gw nc t b n j i c v b' n' j' i' c' :
  shaped5 B A gh gw nc t ->
  norm_index B b = Some b' -> norm_index A n = Some n' ->
  norm_index gh j = Some j' -> norm_index gw i = Some i' ->
  norm_index nc c = Some c' ->
  exists t',
    set5 t b n j i c v = ok t' /\
    shaped5 B A gh gw nc t' /\
    forall b2 n2 j2 i2 c2,
      get5 t' b2 n2 j2 i2 c2 =
      if decide (b2 = b' /\ n2 = n' /\ j2 = j' /\ i2 = i' /\ c2 = c')
      then Some v else get5 t b2 n2 j2 i2 c2.
Proof.
  intros Ht Hb Hn Hj Hi Hc.
  destruct (set5_get5 t b' n' j' i' c' v) as (t' & Et & Gt).
  { apply (shaped5_get5 B A gh gw nc); eauto using norm_index_lt. }
  rewrite <- (set5_renorm B A gh gw nc t b n j i c v) in Et by assumption.
  exists t'. split; [exact Et|]. split; [|exact Gt].
  eapply set5_shaped; eassumption.
Qed.

(** A write with an index outside its dimension fails. *)
Lemma set5_invalid B A gh gw nc t b n j i c v :
  shaped5 B A gh gw nc t ->
  norm_index B b = None \/ norm_index A n = None \/ norm_index gh j = None \/
  norm_index gw i = None \/ norm_index nc c = None ->
  set5 t b n j i c v = raise OutOfBounds.
Proof.
  unfold shaped5, set5. intros [Hlen Ht] Hbad.
  destruct (norm_index B b) as [b'|] eqn:Eb;
    [|apply upd_oob_index; by rewrite Hlen].
  eapply upd_oob_below; [exact Ht|]. intros t4 [Hlen4 H4].
  destruct (norm_index A n) as [n'|] eqn:En;
    [|apply upd_oob_index; by rewrite Hlen4].
  eapply upd_oob_below; [exact H4|]. intros t3 [Hlen3 H3].
  destruct (norm_index gh j) as [j'|] eqn:Ej;
    [|apply upd_oob_index; by rewrite Hlen3].
  eapply upd_oob_below; [exact H3|]. intros t2 [Hlen2 H2].
  destruct (norm_index gw i) as [i'|] eqn:Ei;
    [|apply upd_oob_index; by rewrite Hlen2].
  eapply upd_oob_below; [exact H2|]. intros r Hr. cbv beta in Hr.
  apply upd_oob_index. rewrite Hr.
  destruct Hbad as [H|[H|[H|[H|H]]]]; try discriminate. exact H.
Qed.

Lemma argmax_lt (l : list Q) (n : nat) : argmax l = ok n -> n < length l.
Proof.
  destruct l as [|v l]; simpl; [discriminate|]. intros [= <-].
  pose proof (argmax_from_lt l 0 v 1 ltac:(lia)). lia.
Qed.

Lemma best_anchor_lt L s gt n : best_anchor L s gt = ok n -> n < sA s.
Proof.
  unfold best_anchor, anchor_boxes, bbox_iou_rows. intros H.
  destruct (Nat.eqb_spec (length (anchors L)) (sA s)) as [Hlen|]; [|discriminate].
  simpl bind in H.
  rewrite length_replicate, length_map, Hlen, Nat.eqb_refl in H.
  apply bind_ok_inv in H as (ious & Hious & H).
  apply argmax_lt in H. apply traverse_length in Hious.
  rewrite length_combine, length_replicate, length_map, Hlen in Hious. lia.
Qed.

(** What one ground-truth row does to a tensor of the right shape when
    its indices are valid, negative ones included: six writes into the
    row at image [b], anchor [n], grid row [j], grid column [i]. *)
Lemma assign_gt_effect L s b gt t n i j k :
  shaped5 (sB s) (sA s) (sgh s) (sgw s) (5 + num_classes L) t ->
  b < sB s ->
  best_anchor L s gt = ok n ->
  norm_index (sgw s) (int_of (cell_x s gt)) = Some i ->
  norm_index (sgh s) (int_of (cell_y s gt)) = Some j ->
  norm_index (5 + num_classes L) (5 + int_of (gt_cls gt)) = Some k ->
  exists t',
    assign_gt L s b gt t = ok t' /\
    shaped5 (sB s) (sA s) (sgh s) (sgw s) (5 + num_classes L) t' /\
    forall b' n' j' i' c',
      get5 t' b' n' j' i' c' =
      if decide (b' = b /\ n' = n /\ j' = j /\ i' = i) then
        if decide (c' = k) then Some 1%Q
        else match c' with
             | 0 => Some (cell_x s gt - inject_Z (int_of (cell_x s gt)))%Q
             | 1 => Some (cell_y s gt - inject_Z (int_of (cell_y s gt)))%Q
             | 2 => Some (box_w s gt)
             | 3 => Some (box_h s gt)
             | 4 => Some 1%Q
             | _ => get5 t b n j i c'
             end
      else get5 t b' n' j' i' c'.
Proof.
  intros Ht Hb Hn Hi Hj Hk. unfold assign_gt. rewrite Hn. simpl bind. cbv zeta.
  pose proof (best_anchor_lt _ _ _ _ Hn) as Hnlt.
  pose proof (norm_index_nat _ _ Hb) as Nb.
  pose proof (norm_index_nat _ _ Hnlt) as Nn.
  assert (N4 : norm_index (5 + num_classes L) 4 = Some 4)
    by (apply (norm_index_nat _ 4); lia).
  assert (N0 : norm_index (5 + num_classes L) 0 = Some 0)
    by (apply (norm_index_nat _ 0); lia).
  assert (N1 : norm_index (5 + num_classes L) 1 = Some 1)
    by (apply (norm_index_nat _ 1); lia).
  assert (N2 : norm_index (5 + num_classes L) 2 = Some 2)
    by (apply (norm_index_nat _ 2); lia).
  assert (N3 : norm_index (5 + num_classes L) 3 = Some 3)
    by (apply (norm_index_nat _ 3); lia).
  destruct (set5_valid _ _ _ _ _ t _ _ _ _ _ 1%Q _ _ _ _ _ Ht Nb Nn Hj Hi N4)
    as (t1 & E1 & S1 & G1).
  rewrite E1. simpl bind.
  destruct (set5_valid _ _ _ _ _ t1 _ _ _ _ _
              (cell_x s gt - inject_Z (int_of (cell_x s gt)))%Q
              _ _ _ _ _ S1 Nb Nn Hj Hi N0) as (t2 & E2 & S2 & G2).
  rewrite E2. simpl bind.
  destruct (set5_valid _ _ _ _ _ t2 _ _ _ _ _
              (cell_y s gt - inject_Z (int_of (cell_y s gt)))%Q
              _ _ _ _ _ S2 Nb Nn Hj Hi N1) as (t3 & E3 & S3 & G3).
  rewrite E3. simpl bind.
  destruct (set5_valid _ _ _ _ _ t3 _ _ _ _ _ (box_w s gt)
              _ _ _ _ _ S3 Nb Nn Hj Hi N2) as (t4 & E4 & S4 & G4).
  rewrite E4. simpl bind.
  destruct (set5_valid _ _ _ _ _ t4 _ _ _ _ _ (box_h s gt)
              _ _ _ _ _ S4 Nb Nn Hj Hi N3) as (t5 & E5 & S5 & G5).
  rewrite E5. simpl bind.
  destruct (set5_valid _ _ _ _ _ t5 _ _ _ _ _ 1%Q
              _ _ _ _ _ S5 Nb Nn Hj Hi Hk) as (t6 & E6 & S6 & G6).
  exists t6. split; [exact E6|]. split; [exact S6|].
  intros b' n' j' i' c'. rewrite G6, G5, G4, G3, G2, G1.
  destruct (decide (b' = b /\ n' = n /\ j' = j /\ i' = i)) as [(-> & -> & -> & ->)|N].
  - destruct (decide (c' = k)) as [->|Nc].
    + rewrite decide_True by done. reflexivity.
    + rewrite decide_False by (intros (_ & _ & _ & _ & ?); done).
      destruct c' as [|[|[|[|[|c']]]]];
        repeat (first [rewrite decide_True by done
                      |rewrite decide_False by (intros (_ & _ & _ & _ & ?); lia)]);
        reflexivity.
  - repeat (rewrite decide_False by (intros (? & ? & ? & ? & _); apply N; done)).
    reflexivity.
Qed.

Lemma assign_gt_invalid L s b gt t :
  shaped5 (sB s) (sA s) (sgh s) (sgw s) (5 + num_classes L) t ->
  length (anchors L) = sA s -> 0 < sA s ->
  ~ valid_gt L s gt ->
  assign_gt L s b gt t = raise OutOfBounds.
Proof.
  intros Ht Hlen Hpos Hbad.
  destruct (assign_gt L s b gt t) as [e|t'] eqn:E.
  { by rewrite (assign_gt_failure _ _ _ _ _ _ Hlen Hpos E). }
  exfalso. unfold assign_gt in E.
  apply bind_ok_inv in E as (n & _ & E). cbv zeta in E.
  apply bind_ok_inv in E as (t1 & E1 & E).
  apply bind_ok_inv in E as (t2 & E2 & E).
  apply bind_ok_inv in E as (t3 & E3 & E).
  apply bind_ok_inv in E as (t4 & E4 & E).
  apply bind_ok_inv in E as (t5 & E5 & E).
  pose proof (set5_shaped _ _ _ _ _ _ _ _ _ _ _ _ _ Ht E1) as S1.
  pose proof (set5_shaped _ _ _ _ _ _ _ _ _ _ _ _ _ S1 E2) as S2.
  pose proof (set5_shaped _ _ _ _ _ _ _ _ _ _ _ _ _ S2 E3) as S3.
  pose proof (set5_shaped _ _ _ _ _ _ _ _ _ _ _ _ _ S3 E4) as S4.
  pose proof (set5_shaped _ _ _ _ _ _ _ _ _ _ _ _ _ S4 E5) as S5.
  apply Hbad. unfold valid_gt. rewrite <- !norm_index_valid.
  repeat split.
  - destruct (norm_index (sgw s) (int_of (cell_x s gt))) eqn:N; [by eexists|].
    rewrite (set5_invalid _ _ _ _ _ _ _ _ _ _ _ _ Ht) in E1 by auto.
    discriminate.
  - destruct (norm_index (sgh s) (int_of (cell_y s gt))) eqn:N; [by eexists|].
    rewrite (set5_invalid _ _ _ _ _ _ _ _ _ _ _ _ Ht) in E1 by auto.
    discriminate.
  - destruct (norm_index (5 + num_classes L) (5 + int_of (gt_cls gt))) eqn:N;
      [by eexists|].
    rewrite (set5_invalid _ _ _ _ _ _ _ _ _ _ _ _ S5) in E by auto 6.
    discriminate.
Qed.

Lemma assign_gt_valid L s b gt t :
  shaped5 (sB s) (sA s) (sgh s) (sgw s) (5 + num_classes L) t ->
  b < sB s -> length (anchors L) = sA s -> 0 < sA s ->
  valid_gt L s gt ->
  exists t', assign_gt L s b gt t = ok t' /\
             shaped5 (sB s) (sA s) (sgh s) (sgw s) (5 + num_classes L) t'.
Proof.
  intros Ht Hb Hlen Hpos (Vx & Vy & Vc).
  destruct (best_anchor_ok L s gt Hlen Hpos) as (n & Hn & _).
  apply norm_index_valid in Vx as [i Hi].
  apply norm_index_valid in Vy as [j Hj].
  apply norm_index_valid in Vc as [k Hk].
  destruct (assign_gt_effect L s b gt t n i j k) as (t' & Et & St & _);
    try assumption.
  by exists t'.
Qed.

Lemma assign_gt_ok_valid L s b gt t :
  shaped5 (sB s) (sA s) (sgh s) (sgw s) (5 + num_classes L) t ->
  (exists t', assign_gt L s b gt t = ok t') -> valid_gt L s gt.
Proof.
  intros Ht (t' & Et).
  destruct (norm_index (sgw s) (int_of (cell_x s gt))) as [i|] eqn:Ni.
  2: { exfalso. unfold assign_gt in Et.
       apply bind_ok_inv in Et as (n & _ & Et). cbv zeta in Et.
       apply bind_ok_inv in Et as (t1 & E1 & _).
       rewrite (set5_invalid _ _ _ _ _ _ _ _ _ _ _ _ Ht) in E1 by auto.
       discriminate. }
  destruct (norm_index (sgh s) (int_of (cell_y s gt))) as [j|] eqn:Nj.
  2: { exfalso. unfold assign_gt in Et.
       apply bind_ok_inv in Et as (n & _ & Et). cbv zeta in Et.
       apply bind_ok_inv in Et as (t1 & E1 & _).
       rewrite (set5_invalid _ _ _ _ _ _ _ _ _ _ _ _ Ht) in E1 by auto.
       discriminate. }
  destruct (norm_index (5 + num_classes L) (5 + int_of (gt_cls gt)))
    as [k|] eqn:Nk.
  2: { exfalso. unfold assign_gt in Et.
       apply bind_ok_inv in Et as (n & _ & Et). cbv zeta in Et.
       apply bind_ok_inv in Et as (t1 & E1 & Et).
       apply bind_ok_inv in Et as (t2 & E2 & Et).
       apply bind_ok_inv in Et as (t3 & E3 & Et).
       apply bind_ok_inv in Et as (t4 & E4 & Et).
       apply bind_ok_inv in Et as (t5 & E5 & Et).
       pose proof (set5_shaped _ _ _ _ _ _ _ _ _ _ _ _ _ Ht E1) as S1.
       pose proof (set5_shaped _ _ _ _ _ _ _ _ _ _ _ _ _ S1 E2) as S2.
       pose proof (set5_shaped _ _ _ _ _ _ _ _ _ _ _ _ _ S2 E3) as S3.
       pose proof (set5_shaped _ _ _ _ _ _ _ _ _ _ _ _ _ S3 E4) as S4.
       pose proof (set5_shaped _ _ _ _ _ _ _ _ _ _ _ _ _ S4 E5) as S5.
       rewrite (set5_invalid _ _ _ _ _ _ _ _ _ _ _ _ S5) in Et by auto 6.
       discriminate. }
  unfold valid_gt. rewrite <- !norm_index_valid, Ni, Nj, Nk.
  repeat split; by eexists.
Qed.

(** X6.  On a tensor of the right shape, with as many anchors as the
    predictions have (at least one), the assignment of one ground-truth
    row succeeds exactly when its column index [int(x * gw)], its row
    index [int(y * gh)] and its class channel [5 + int(cls)] lie within
    the tensor, negative indices counting from the end; otherwise it
    fails with an index error. *)
Theorem assign_gt_succeeds_iff L s b gt t :
  shaped5 (sB s) (sA s) (sgh s) (sgw s) (5 + num_classes L) t ->
  b < sB s -> length (anchors L) = sA s -> 0 < sA s ->
  ((exists t', assign_gt L s b gt t = ok t') <-> valid_gt L s gt) /\
  (~ valid_gt L s gt -> assign_gt L s b gt t = raise OutOfBounds).
Proof.
  intros Ht Hb Hlen Hpos. split; [split|].
  - by apply assign_gt_ok_valid.
  - intros Hv.
    destruct (assign_gt_valid L s b gt t Ht Hb Hlen Hpos Hv) as (t' & Et & _).
    by exists t'.
  - by apply assign_gt_invalid.
Qed.

Lemma assign_gt_succeeds_iff_witness :
  (exists t',
     assign_gt (yolo_loss_default [(1, 1); (2, 2)]%Q 2) (Shape 1 2 4 4) 0
       (GT 1 (-1 # 2) (3 # 4) (1 # 2) (1 # 2)) (zeros5 1 2 4 4 7) = ok t') <->
  valid_gt (yolo_loss_default [(1, 1); (2, 2)]%Q 2) (Shape 1 2 4 4)
    (GT 1 (-1 # 2) (3 # 4) (1 # 2) (1 # 2)).
Proof.
  apply (assign_gt_succeeds_iff
           (yolo_loss_default [(1, 1); (2, 2)]%Q 2) (Shape 1 2 4 4) 0
           (GT 1 (-1 # 2) (3 # 4) (1 # 2) (1 # 2)) (zeros5 1 2 4 4 7)).
  - apply (zeros5_shaped 1 2 4 4 7).
  - simpl. lia.
  - reflexivity.
  - simpl. lia.
Defined.

Lemma assign_image_ok_iff L s b gts t :
  shaped5 (sB s) (sA s) (sgh s) (sgw s) (5 + num_classes L) t ->
  b < sB s -> length (anchors L) = sA s -> 0 < sA s ->
  (exists t', assign_image L s b gts t = ok t') <-> Forall (valid_gt L s) gts.
Proof.
  intros Ht Hb Hlen Hpos. revert t Ht.
  induction gts as [|g gts IH]; intros t Ht; simpl.
  - split; [constructor|]. intros _. by exists t.
  - split.
    + intros (t' & H). apply bind_ok_inv in H as (t1 & H1 & H).
      assert (Hv : valid_gt L s g).
      { apply (assign_gt_ok_valid L s b g t Ht). by exists t1. }
      constructor; [exact Hv|].
      apply (IH t1); [eapply assign_gt_shaped; eassumption|]. by exists t'.
    + intros Hv. inversion Hv as [|? ? Hg Hrest]; subst.
      destruct (assign_gt_valid L s b g t Ht Hb Hlen Hpos Hg) as (t1 & -> & S1).
      simpl. by apply IH.
Qed.

Lemma assign_batch_shaped L s bs targets t t' nc :
  shaped5 (sB s) (sA s) (sgh s) (sgw s) nc t ->
  assign_batch L s bs targets t = ok t' ->
  shaped5 (sB s) (sA s) (sgh s) (sgw s) nc t'.
Proof.
  revert t. induction bs as [|b bs IH]; simpl; intros t Ht H.
  - by injection H as <-.
  - destruct (targets !! b) as [gts|]; [|discriminate].
    apply bind_ok_inv in H as (t1 & H1 & H).
    eapply IH; [|exact H]. eapply assign_image_shaped; eassumption.
Qed.

Lemma assign_batch_failure L s bs targets t e :
  length (anchors L) = sA s -> 0 < sA s ->
  assign_batch L s bs targets t = inl e -> e = OutOfBounds.
Proof.
  intros Hlen Hpos. revert t e.
  induction bs as [|b bs IH]; simpl; intros t e; [discriminate|].
  destruct (targets !! b) as [gts|]; [|by intros [= <-]].
  apply bind_failure; [intros ?; by apply assign_image_failure|intros ? ?; apply IH].
Qed.

Lemma assign_batch_ok_iff L s bs targets t :
  shaped5 (sB s) (sA s) (sgh s) (sgw s) (5 + num_classes L) t ->
  (forall b, In b bs -> b < sB s) ->
  length (anchors L) = sA s -> 0 < sA s ->
  (exists t', assign_batch L s bs targets t = ok t') <->
  (forall b, In b bs ->
     exists gts, targets !! b = Some gts /\ Forall (valid_gt L s) gts).
Proof.
  intros Ht Hbs Hlen Hpos. revert t Ht.
  induction bs as [|b bs IH]; intros t Ht; simpl.
  - split; [intros _ ? []|]. intros _. by exists t.
  - assert (Hb : b < sB s) by (apply Hbs; by left).
    assert (Hbs' : forall b', In b' bs -> b' < sB s)
      by (intros b' Hb'; apply Hbs; by right).
    split.
    + intros (t' & H).
      destruct (targets !! b) as [gts|] eqn:Eb; [|discriminate].
      apply bind_ok_inv in H as (t1 & H1 & H).
      assert (Hv : Forall (valid_gt L s) gts).
      { apply (assign_image_ok_iff L s b gts t Ht Hb Hlen Hpos). by exists t1. }
      intros b' [<-|Hb'].
      * exists gts. by split.
      * eapply (IH Hbs' t1); [eapply assign_image_shaped; eassumption| |exact Hb'].
        by exists t'.
    + intros Hall.
      destruct (Hall b) as (gts & -> & Hv); [by left|].
      destruct (proj2 (assign_image_ok_iff L s b gts t Ht Hb Hlen Hpos) Hv)
        as (t1 & H1).
      rewrite H1. simpl.
      apply (IH Hbs' t1); [eapply assign_image_shaped; eassumption|].
      intros b' Hb'. apply Hall. by right.
Qed.

(** X7.  With as many anchors as the predictions have (at least one),
    the target tensor of a batch is built exactly when every image of
    the batch has a list of ground-truth rows and every row has its
    column, row and class-channel indices within the tensor (negative
    indices counting from the end); any failure is an index error. *)
Theorem build_targets_succeeds_iff L s targets :
  length (anchors L) = sA s -> 0 < sA s ->
  ((exists t, build_targets L s targets = ok t) <->
   (forall b, b < sB s ->
      exists gts, targets !! b = Some gts /\ Forall (valid_gt L s) gts)) /\
  (forall e, build_targets L s targets = inl e -> e = OutOfBounds).
Proof.
  intros Hlen Hpos. unfold build_targets. split.
  - rewrite (assign_batch_ok_iff L s (seq 0 (sB s)) targets _
               (zeros5_shaped _ _ _ _ _)); try assumption.
    + split; intros H b Hb; apply H; [apply in_seq; lia|apply in_seq in Hb; lia].
    + intros b Hb. apply in_seq in Hb. lia.
  - intros e. by apply assign_batch_failure.
Qed.

Lemma build_targets_succeeds_iff_witness :
  (exists t,
     build_targets (yolo_loss_default [(1, 1); (2, 2)]%Q 2) (Shape 1 2 4 4)
       [[GT 1 (1 # 2) (3 # 4) (1 # 2) (1 # 2)]] = ok t) <->
  (forall b, b < 1 ->
     exists gts,
       [[GT 1 (1 # 2) (3 # 4) (1 # 2) (1 # 2)]] !! b = Some gts /\
       Forall (valid_gt (yolo_loss_default [(1, 1); (2, 2)]%Q 2) (Shape 1 2 4 4))
         gts).
Proof.
  apply (build_targets_succeeds_iff
           (yolo_loss_default [(1, 1); (2, 2)]%Q 2) (Shape 1 2 4 4)
           [[GT 1 (1 # 2) (3 # 4) (1 # 2) (1 # 2)]]).
  - reflexivity.
  - simpl. lia.
Defined.

(** X8.  When every image of the batch has an empty list of ground-truth
    rows, the target tensor is all zeros. *)
Theorem build_targets_no_boxes L s targets :
  (forall b, b < sB s -> targets !! b = Some []) ->
  build_targets L s targets =
  ok (zeros5 (sB s) (sA s) (sgh s) (sgw s) (5 + num_classes L)).
Proof.
  intros H. unfold build_targets. apply assign_batch_skip.
  intros b Hb. apply H. apply in_seq in Hb. lia.
Qed.

Lemma build_targets_no_boxes_witness :
  build_targets (yolo_loss_default [(1, 1)]%Q 1) (Shape 2 1 2 2) [[]; []] =
  ok (zeros5 2 1 2 2 6).
Proof.
  apply (build_targets_no_boxes (yolo_loss_default [(1, 1)]%Q 1)
           (Shape 2 1 2 2) [[]; []]).
  intros [|[|b]] Hb; simpl in *; [reflexivity|reflexivity|lia].
Defined.

(** X9.  A target tensor, once built, has the shape
    [(B, A, gh, gw, 5 + num_classes)] read from the predictions. *)
Theorem build_targets_shape L s targets t :
  build_targets L s targets = ok t ->
  shaped5 (sB s) (sA s) (sgh s) (sgw s) (5 + num_classes L) t.
Proof.
  unfold build_targets. intros H.
  eapply assign_batch_shaped; [|exact H]. apply zeros5_shaped.
Qed.

Lemma build_targets_shape_witness :
  exists t,
    build_targets (yolo_loss_default [(1, 1); (2, 2)]%Q 2) (Shape 1 2 4 4)
      [[GT 1 (1 # 2) (3 # 4) (1 # 2) (1 # 2)]] = ok t /\
    shaped5 1 2 4 4 7 t.
Proof.
  let r := eval vm_compute in
      (build_targets (yolo_loss_default [(1, 1); (2, 2)]%Q 2) (Shape 1 2 4 4)
         [[GT 1 (1 # 2) (3 # 4) (1 # 2) (1 # 2)]]) in
  match r with
  | inr ?t =>
      exists t;
      assert (Ht : build_targets (yolo_loss_default [(1, 1); (2, 2)]%Q 2)
                     (Shape 1 2 4 4)
                     [[GT 1 (1 # 2) (3 # 4) (1 # 2) (1 # 2)]] = ok t)
        by (vm_compute; reflexivity);
      split; [exact Ht|exact (build_targets_shape _ _ _ _ Ht)]
  end.
Defined.

(** [int] truncates toward zero: below zero, the number lies less than
    one unit under its integer part. *)
Lemma int_of_negative (q : Q) :
  (int_of q < 0)%Z ->
  (-1 < q - inject_Z (int_of q))%Q /\ (q - inject_Z (int_of q) <= 0)%Q.
Proof.
  destruct q as [num den]. unfold int_of. simpl. intros Hneg.
  assert (Hnum : (num < 0)%Z).
  { destruct (Z_lt_dec num 0); [assumption|].
    pose proof (Z.quot_pos num (Z.pos den)). lia. }
  pose proof (Z.quot_rem' num (Z.pos den)) as Hqr.
  assert (Hr' : (- Z.pos den < Z.rem num (Z.pos den) <= 0)%Z)
    by (apply Z.rem_bound_pos_neg; lia).
  set (z := Z.quot num (Z.pos den)) in *.
  set (r := Z.rem num (Z.pos den)) in *.
  unfold Qlt, Qle, Qminus, Qplus, Qopp, inject_Z. simpl.
  split; nia.
Qed.

(** X10.  A ground-truth row with a negative column index not below
    [-gw] is not rejected: it is written counting from the far edge, in
    column [gw + int(x * gw)], with an offset within the cell in
    (-1, 0]. *)
Theorem negative_center_wraps L s b gt t :
  shaped5 (sB s) (sA s) (sgh s) (sgw s) (5 + num_classes L) t ->
  b < sB s -> length (anchors L) = sA s -> 0 < sA s ->
  (- Z.of_nat (sgw s) <= int_of (cell_x s gt) < 0)%Z ->
  (0 <= int_of (cell_y s gt) < Z.of_nat (sgh s))%Z ->
  (0 <= int_of (gt_cls gt) < Z.of_nat (num_classes L))%Z ->
  exists t' n,
    best_anchor L s gt = ok n /\
    assign_gt L s b gt t = ok t' /\
    let i := Z.to_nat (int_of (cell_x s gt) + Z.of_nat (sgw s)) in
    let j := Z.to_nat (int_of (cell_y s gt)) in
    let dx := (cell_x s gt - inject_Z (int_of (cell_x s gt)))%Q in
    i < sgw s /\
    get5 t' b n j i 4 = Some 1%Q /\
    get5 t' b n j i 0 = Some dx /\
    (-1 < dx)%Q /\ (dx <= 0)%Q.
Proof.
  intros Ht Hb Hlen Hpos Hx Hy Hc.
  destruct (best_anchor_ok L s gt Hlen Hpos) as (n & Hn & _).
  pose proof (norm_index_from_end _ _ Hx) as Ni.
  assert (Nj : norm_index (sgh s) (int_of (cell_y s gt))
               = Some (Z.to_nat (int_of (cell_y s gt)))).
  { rewrite <- (Z2Nat.id (int_of (cell_y s gt))) at 1 by lia.
    apply norm_index_nat. lia. }
  assert (Nk : norm_index (5 + num_classes L) (5 + int_of (gt_cls gt))
               = Some (5 + Z.to_nat (int_of (gt_cls gt)))).
  { replace (5 + int_of (gt_cls gt))%Z
      with (Z.of_nat (5 + Z.to_nat (int_of (gt_cls gt)))) by lia.
    apply norm_index_nat. lia. }
  destruct (assign_gt_effect L s b gt t n _ _ _ Ht Hb Hn Ni Nj Nk)
    as (t' & Et & _ & Gt).
  exists t', n. split; [exact Hn|]. split; [exact Et|]. cbv zeta.
  split; [lia|].
  split; [|split].
  - rewrite Gt. rewrite decide_True by done.
    rewrite decide_False by lia. reflexivity.
  - rewrite Gt. rewrite decide_True by done.
    rewrite decide_False by lia. reflexivity.
  - apply int_of_negative. lia.
Qed.

Lemma negative_center_wraps_witness :
  exists t' n,
    assign_gt (yolo_loss_default [(1, 1); (2, 2)]%Q 2) (Shape 1 2 4 4) 0
      (GT 1 (-1 # 2) (3 # 4) (1 # 2) (1 # 2)) (zeros5 1 2 4 4 7) = ok t' /\
    get5 t' 0 n 3 2 4 = Some 1%Q.
Proof.
  destruct (negative_center_wraps
              (yolo_loss_default [(1, 1); (2, 2)]%Q 2) (Shape 1 2 4 4) 0
              (GT 1 (-1 # 2) (3 # 4) (1 # 2) (1 # 2)) (zeros5 1 2 4 4 7))
    as (t' & n & _ & Et & _ & H4 & _).
  - apply (zeros5_shaped 1 2 4 4 7).
  - simpl. lia.
  - reflexivity.
  - simpl. lia.
  - vm_compute. split; [discriminate|reflexivity].
  - vm_compute. split; [discriminate|reflexivity].
  - vm_compute. split; [discriminate|reflexivity].
  - exists t', n. split; [exact Et|exact H4].
Defined.

(** X11.  Two ground-truth rows of one image that select the same anchor
    and the same cell: the second row's offsets and sizes replace the
    first's, objectness stays 1, and the class channels of both rows are
    set, so that the row carries two classes when the classes differ. *)
Theorem same_cell_second_row_wins L s b gt1 gt2 t n i j c1 c2 :
  shaped5 (sB s) (sA s) (sgh s) (sgw s) (5 + num_classes L) t ->
  b < sB s ->
  best_anchor L s gt1 = ok n -> best_anchor L s gt2 = ok n ->
  norm_index (sgw s) (int_of (cell_x s gt1)) = Some i ->
  norm_index (sgw s) (int_of (cell_x s gt2)) = Some i ->
  norm_index (sgh s) (int_of (cell_y s gt1)) = Some j ->
  norm_index (sgh s) (int_of (cell_y s gt2)) = Some j ->
  int_of (gt_cls gt1) = Z.of_nat c1 -> c1 < num_classes L ->
  int_of (gt_cls gt2) = Z.of_nat c2 -> c2 < num_classes L ->
  exists t',
    assign_image L s b [gt1; gt2] t = ok t' /\
    get5 t' b n j i 0
      = Some (cell_x s gt2 - inject_Z (int_of (cell_x s gt2)))%Q /\
    get5 t' b n j i 1
      = Some (cell_y s gt2 - inject_Z (int_of (cell_y s gt2)))%Q /\
    get5 t' b n j i 2 = Some (box_w s gt2) /\
    get5 t' b n j i 3 = Some (box_h s gt2) /\
    get5 t' b n j i 4 = Some 1%Q /\
    get5 t' b n j i (5 + c1) = Some 1%Q /\
    get5 t' b n j i (5 + c2) = Some 1%Q.
Proof.
  intros Ht Hb Hn1 Hn2 Hi1 Hi2 Hj1 Hj2 Hc1 Hlt1 Hc2 Hlt2.
  assert (Nk1 : norm_index (5 + num_classes L) (5 + int_of (gt_cls gt1))
                = Some (5 + c1)).
  { rewrite Hc1. replace (5 + Z.of_nat c1)%Z with (Z.of_nat (5 + c1)) by lia.
    apply norm_index_nat. lia. }
  assert (Nk2 : norm_index (5 + num_classes L) (5 + int_of (gt_cls gt2))
                = Some (5 + c2)).
  { rewrite Hc2. replace (5 + Z.of_nat c2)%Z with (Z.of_nat (5 + c2)) by lia.
    apply norm_index_nat. lia. }
  destruct (assign_gt_effect L s b gt1 t n i j _ Ht Hb Hn1 Hi1 Hj1 Nk1)
    as (t1 & E1 & S1 & G1).
  destruct (assign_gt_effect L s b gt2 t1 n i j _ S1 Hb Hn2 Hi2 Hj2 Nk2)
    as (t2 & E2 & _ & G2).
  exists t2. split.
  { simpl. rewrite E1. simpl. rewrite E2. reflexivity. }
  repeat split; rewrite G2; rewrite decide_True by done.
  - rewrite decide_False by lia. reflexivity.
  - rewrite decide_False by lia. reflexivity.
  - rewrite decide_False by lia. reflexivity.
  - rewrite decide_False by lia. reflexivity.
  - rewrite decide_False by lia. reflexivity.
  - destruct (decide (5 + c1 = 5 + c2)) as [_|_]; [reflexivity|].
    change (5 + c1) with (S (S (S (S (S c1))))) at 1. cbv iota.
    rewrite G1. rewrite decide_True by done.
    rewrite decide_True by done. reflexivity.
  - rewrite decide_True by done. reflexivity.
Qed.

Lemma same_cell_second_row_wins_witness :
  exists t',
    assign_image (yolo_loss_default [(1, 1); (2, 2)]%Q 3) (Shape 1 2 4 4) 0
      [GT 0 (1 # 2) (1 # 2) (1 # 4) (1 # 4);
       GT 2 (9 # 16) (9 # 16) (1 # 4) (1 # 4)] (zeros5 1 2 4 4 8) = ok t' /\
    get5 t' 0 0 2 2 5 = Some 1%Q /\
    get5 t' 0 0 2 2 7 = Some 1%Q.
Proof.
  destruct (same_cell_second_row_wins
              (yolo_loss_default [(1, 1); (2, 2)]%Q 3) (Shape 1 2 4 4) 0
              (GT 0 (1 # 2) (1 # 2) (1 # 4) (1 # 4))
              (GT 2 (9 # 16) (9 # 16) (1 # 4) (1 # 4))
              (zeros5 1 2 4 4 8) 0 2 2 0 2)
    as (t' & Et & _ & _ & _ & _ & _ & H1 & H2).
  - apply (zeros5_shaped 1 2 4 4 8).
  - simpl. lia.
  - vm_compute. reflexivity.
  - vm_compute. reflexivity.
  - vm_compute. reflexivity.
  - vm_compute. reflexivity.
  - vm_compute. reflexivity.
  - vm_compute. reflexivity.
  - vm_compute. reflexivity.
  - simpl. lia.
  - vm_compute. reflexivity.
  - simpl. lia.
  - exists t'. split; [exact Et|]. split; [exact H1|exact H2].
Defined.

(** The running maximum of [argmax_from]: after the entries [pre], the
    best position holds the largest entry seen, and the entries before
    it are strictly smaller. *)
Lemma argmax_from_first_max (l pre : list Q) (bi : nat) (bv : Q) :
  pre !! bi = Some bv ->
  (forall m u, pre !! m = Some u -> (u <= bv)%Q) ->
  (forall m u, m < bi -> pre !! m = Some u -> (u < bv)%Q) ->
  let n := argmax_from bi bv (length pre) l in
  exists v,
    (pre ++ l) !! n = Some v /\
    (forall m u, (pre ++ l) !! m = Some u -> (u <= v)%Q) /\
    (forall m u, m < n -> (pre ++ l) !! m = Some u -> (u < v)%Q).
Proof.
  revert pre bi bv. induction l as [|x l IH]; intros pre bi bv Hbi Hall Hbefore.
  - simpl. rewrite app_nil_r. exists bv. auto.
  - simpl. destruct (Qlt_le_dec bv x) as [Hlt|Hle].
    + specialize (IH (pre ++ [x]) (length pre) x).
      rewrite length_app in IH. simpl in IH.
      replace (length pre + 1) with (S (length pre)) in IH by lia.
      rewrite <- app_assoc in IH. simpl in IH. apply IH.
      * rewrite lookup_app_r by lia. by rewrite Nat.sub_diag.
      * intros m u Hm. apply lookup_app_Some in Hm as [Hm|[_ Hm]].
        -- pose proof (Hall m u Hm). lra.
        -- destruct (m - length pre) as [|k]; simpl in Hm; [|discriminate].
           injection Hm as <-. lra.
      * intros m u Hlt' Hm. rewrite lookup_app_l in Hm by lia.
        pose proof (Hall m u Hm). lra.
    + specialize (IH (pre ++ [x]) bi bv).
      rewrite length_app in IH. simpl in IH.
      replace (length pre + 1) with (S (length pre)) in IH by lia.
      rewrite <- app_assoc in IH. simpl in IH. apply IH.
      * apply lookup_app_l_Some. exact Hbi.
      * intros m u Hm. apply lookup_app_Some in Hm as [Hm|[_ Hm]].
        -- by apply (Hall m).
        -- destruct (m - length pre) as [|k]; simpl in Hm; [|discriminate].
           injection Hm as <-. exact Hle.
      * intros m u Hlt' Hm.
        pose proof (lookup_lt_Some _ _ _ Hbi) as Hbilt.
        rewrite lookup_app_l in Hm by lia. by apply (Hbefore m).
Qed.

Lemma argmax_first_max (l : list Q) (n : nat) :
  argmax l = ok n ->
  exists v,
    l !! n = Some v /\
    (forall m u, l !! m = Some u -> (u <= v)%Q) /\
    (forall m u, m < n -> l !! m = Some u -> (u < v)%Q).
Proof.
  destruct l as [|x l]; simpl; [discriminate|]. intros [= <-].
  apply (argmax_from_first_max l [x] 0 x).
  - reflexivity.
  - intros [|m] u Hm; simpl in Hm; [|discriminate]. injection Hm as <-. lra.
  - intros m u Hm. lia.
Qed.

Lemma ious_lookup (bx : list Q) (ancs : list (Q * Q)) (n m : nat) (am : Q * Q) :
  ancs !! m = Some am -> m < n ->
  map iou_or_0
    (combine (replicate n bx) (map (fun a => [0%Q; 0%Q; fst a; snd a]) ancs))
    !! m
  = Some (iou_or_0 (bx, [0%Q; 0%Q; fst am; snd am])).
Proof.
  revert n m. induction ancs as [|a ancs IH]; intros n m Hm Hlt; [discriminate|].
  destruct n as [|n]; [lia|]. destruct m as [|m]; simpl in *.
  - by injection Hm as <-.
  - apply IH; [exact Hm|lia].
Qed.

(** X12.  The anchor selected for a ground-truth row has the largest IoU
    with the candidate box among all anchors, and every anchor of lower
    index has a strictly smaller one: ties go to the lowest index. *)
Theorem best_anchor_first_maximum L s gt n :
  best_anchor L s gt = ok n ->
  exists an v,
    anchors L !! n = Some an /\
    bbox_iou eps_default (candidate_box s gt) [0%Q; 0%Q; fst an; snd an] = ok v /\
    forall m am,
      anchors L !! m = Some am ->
      exists u,
        bbox_iou eps_default (candidate_box s gt) [0%Q; 0%Q; fst am; snd am]
          = ok u /\
        (u <= v)%Q /\ (m < n -> (u < v)%Q).
Proof.
  intros Hbest. pose proof (best_anchor_lt _ _ _ _ Hbest) as Hnlt.
  unfold best_anchor, anchor_boxes, bbox_iou_rows in Hbest.
  destruct (Nat.eqb_spec (length (anchors L)) (sA s)) as [Hlen|]; [|discriminate].
  simpl bind in Hbest.
  rewrite length_replicate, length_map, Hlen, Nat.eqb_refl in Hbest.
  rewrite (traverse_total _ iou_or_0) in Hbest
    by (apply iou_rows_anchors; reflexivity).
  simpl bind in Hbest.
  apply argmax_first_max in Hbest as (v & Hv & Hmax & Hfirst).
  assert (Hiou : forall a : Q * Q,
             bbox_iou eps_default (candidate_box s gt) [0%Q; 0%Q; fst a; snd a]
             = ok (iou_or_0 (candidate_box s gt, [0%Q; 0%Q; fst a; snd a]))).
  { intros a. unfold iou_or_0. simpl fst. simpl snd.
    destruct (GeometryFacts.bbox_iou_total eps_default (candidate_box s gt)
                [0%Q; 0%Q; fst a; snd a] eq_refl eq_refl) as (w & ->).
    reflexivity. }
  destruct (lookup_lt_is_Some_2 (anchors L) n) as [an Han]; [lia|].
  rewrite (ious_lookup _ _ _ _ _ Han Hnlt) in Hv. injection Hv as <-.
  exists an, (iou_or_0 (candidate_box s gt, [0%Q; 0%Q; fst an; snd an])).
  split; [exact Han|]. split; [apply Hiou|].
  intros m am Ham.
  pose proof (lookup_lt_Some _ _ _ Ham) as Hmlt. rewrite Hlen in Hmlt.
  pose proof (ious_lookup (candidate_box s gt) _ _ _ _ Ham Hmlt) as Hm.
  exists (iou_or_0 (candidate_box s gt, [0%Q; 0%Q; fst am; snd am])).
  split; [apply Hiou|]. split.
  - eapply Hmax, Hm.
  - intros Hlt. eapply Hfirst; [exact Hlt|exact Hm].
Qed.

Lemma best_anchor_first_maximum_witness :
  exists an v,
    [(1, 1); (2, 2); (3, 3)]%Q !! 1 = Some an /\
    bbox_iou eps_default
      (candidate_box (Shape 1 3 13 13) (GT 2 (1 # 2) (1 # 2) (1 # 10) (1 # 10)))
      [0%Q; 0%Q; fst an; snd an] = ok v.
Proof.
  destruct (best_anchor_first_maximum
              (yolo_loss_default [(1, 1); (2, 2); (3, 3)]%Q 3)
              (Shape 1 3 13 13) (GT 2 (1 # 2) (1 # 2) (1 # 10) (1 # 10)) 1)
    as (an & v & Han & Hv & _).
  - vm_compute. reflexivity.
  - exists an, v. split; [exact Han|exact Hv].
Defined.

End AssignMore.

(* ===================================================================== *)
(** * More about the loss *)
(* ===================================================================== *)

Module LossMore.

Import Geometry Tensor Loss LossTerms TensorFacts AssignFacts LossFacts.
Local Open Scope Q_scope.

Lemma bind_ok {A B} (a : A) (k : A -> result B) : bind (ok a) k = k a.
Proof. reflexivity. Qed.

Lemma sq_nonneg (v : Q) : 0 <= sq v.
Proof. unfold sq. nra. Qed.

Lemma sum_list_nonneg (l : list Q) : Forall (fun v => 0 <= v) l -> 0 <= sum_list l.
Proof.
  induction 1 as [|v l Hv _ IH]; simpl; [lra|]. lra.
Qed.

Lemma sq_sum_nonneg (l : list Q) : 0 <= sq_sum l.
Proof.
  unfold sq_sum. apply sum_list_nonneg.
  induction l; simpl; constructor; [apply sq_nonneg|assumption].
Qed.

Lemma weighted_sq_sum_nonneg (w : Q) (l : list Q) :
  0 <= w -> 0 <= sum_list (map (fun d => w * sq d) l).
Proof.
  intros Hw. apply sum_list_nonneg.
  induction l as [|d l IH]; simpl; constructor; [|assumption].
  pose proof (sq_nonneg d). nra.
Qed.

Lemma cell_loss_nonneg (p r : list Q) (ct : cell_terms) :
  row01 r -> cell_loss p r = ok ct -> terms_nonneg ct.
Proof.
  intros Hr H. unfold cell_loss in H.
  apply bind_ok_inv in H as (pred_obj & _ & H).
  apply bind_ok_inv in H as (t_obj & Ht & H).
  apply bind_ok_inv in H as (dxy & _ & H).
  apply bind_ok_inv in H as (dwh & _ & H).
  apply bind_ok_inv in H as (dcls & _ & [= <-]).
  assert (H01 : t_obj = 0 \/ t_obj = 1).
  { unfold channel in Ht. destruct Hr as [E|E]; rewrite E in Ht;
      injection Ht as <-; auto. }
  pose proof (sq_sum_nonneg dxy). pose proof (sq_sum_nonneg dwh).
  pose proof (sq_nonneg (pred_obj - 1)). pose proof (sq_nonneg pred_obj).
  unfold terms_nonneg. simpl.
  destruct H01 as [-> | ->]; repeat split;
    try (apply weighted_sq_sum_nonneg); try nra; try lra.
Qed.

Lemma combine_Forall_snd {A B} (P : B -> Prop) (l1 : list A) (l2 : list B) :
  Forall P l2 -> Forall (fun pt => P (snd pt)) (combine l1 l2).
Proof.
  intros H. revert l1. induction H as [|y l2 Hy _ IH]; intros [|x l1]; simpl;
    constructor; auto.
Qed.

Lemma sum_terms_nonneg (terms : list cell_terms) :
  Forall terms_nonneg terms ->
  0 <= sum_list (map box_term terms) /\
  0 <= sum_list (map obj_term terms) /\
  0 <= sum_list (map noobj_term terms) /\
  0 <= sum_list (map cls_term terms).
Proof.
  induction 1 as [|ct terms (H1 & H2 & H3 & H4) _ (I1 & I2 & I3 & I4)]; simpl.
  - repeat split; lra.
  - repeat split; lra.
Qed.

(** X13.  With non-negative weights, the loss returned for any
    predictions and any ground truth is non-negative. *)
Theorem loss_nonneg L s preds targets loss :
  0 <= lambda_box L -> 0 <= lambda_obj L ->
  0 <= lambda_noobj L -> 0 <= lambda_cls L ->
  forward L s preds targets = ok loss -> 0 <= loss.
Proof.
  intros Hb Ho Hn Hc H. unfold forward in H.
  apply bind_ok_inv in H as (t & Ht & H).
  apply build_targets_obj01, rows_obj01 in Ht.
  unfold total_loss in H.
  destruct (Nat.eqb _ _); [|discriminate].
  apply bind_ok_inv in H as (terms & Hterms & [= <-]).
  assert (Hall : Forall terms_nonneg terms).
  { apply NMSFacts.traverse_Forall2 in Hterms.
    pose proof (combine_Forall_snd row01 (rows preds) (rows t) Ht) as Hrows.
    induction Hterms as [|pt ct pts cts Hpt _ IH]; constructor.
    - inversion Hrows; subst. eapply cell_loss_nonneg; eassumption.
    - apply IH. by inversion Hrows. }
  destruct (sum_terms_nonneg terms Hall) as (S1 & S2 & S3 & S4).
  nra.
Qed.

Lemma loss_nonneg_witness :
  exists loss,
    forward (yolo_loss_default [(1, 1)]%Q 1) (Shape 1 1 1 2)
      [[[[ [1 # 2; 1 # 2; 1; 1; 3 # 4; 1 # 4];
           [0; 0; 0; 0; 1 # 4; 1] ]]]]
      [[GT 0 (1 # 4) (1 # 2) (1 # 2) (1 # 2)]] = ok loss /\
    0 <= loss.
Proof.
  let r := eval vm_compute in
      (forward (yolo_loss_default [(1, 1)]%Q 1) (Shape 1 1 1 2)
         [[[[ [1 # 2; 1 # 2; 1; 1; 3 # 4; 1 # 4];
              [0; 0; 0; 0; 1 # 4; 1] ]]]]
         [[GT 0 (1 # 4) (1 # 2) (1 # 2) (1 # 2)]]) in
  match r with
  | inr ?l =>
      exists l;
      assert (H : forward (yolo_loss_default [(1, 1)]%Q 1) (Shape 1 1 1 2)
                    [[[[ [1 # 2; 1 # 2; 1; 1; 3 # 4; 1 # 4];
                         [0; 0; 0; 0; 1 # 4; 1] ]]]]
                    [[GT 0 (1 # 4) (1 # 2) (1 # 2) (1 # 2)]] = ok l)
        by (vm_compute; reflexivity);
      split; [exact H|];
      apply (loss_nonneg (yolo_loss_default [(1, 1)]%Q 1) (Shape 1 1 1 2)
               [[[[ [1 # 2; 1 # 2; 1; 1; 3 # 4; 1 # 4];
                    [0; 0; 0; 0; 1 # 4; 1] ]]]]
               [[GT 0 (1 # 4) (1 # 2) (1 # 2) (1 # 2)]] l);
        [unfold Qle; simpl; lia | unfold Qle; simpl; lia
        |unfold Qle; simpl; lia | unfold Qle; simpl; lia | exact H]
  end.
Defined.

(** ** No ground truth at all *)

Lemma concat_sized {A} (n m : nat) (P : A -> Prop) (l : list (list A)) :
  sized n (sized m P) l -> sized (n * m) P (concat l).
Proof.
  intros [Hlen H]. subst n. induction H as [|x l [Hx Px] _ [IHlen IH]]; simpl.
  - split; [reflexivity|constructor].
  - split.
    + rewrite length_app, IHlen, Hx. reflexivity.
    + apply Forall_app. by split.
Qed.

Lemma rows_sized B A gh gw (P : list Q -> Prop) t :
  sized B (sized A (sized gh (sized gw P))) t ->
  sized (B * A * gh * gw) P (rows t).
Proof.
  intros H. unfold rows. by do 3 apply concat_sized.
Qed.

Lemma zeros5_rows B A gh gw nc :
  sized (B * A * gh * gw) (fun r => r = replicate nc 0) (rows (zeros5 B A gh gw nc)).
Proof.
  apply rows_sized. unfold zeros5, sized.
  repeat (split; [apply length_replicate|]; apply Forall_replicate).
  reflexivity.
Qed.

Lemma zero_weighted_sq_sum (l : list Q) :
  sum_list (map (fun d => 0 * sq d) l) == 0.
Proof.
  induction l as [|d l IH]; simpl; [reflexivity|]. rewrite IH. ring.
Qed.

Lemma cell_loss_background (C : nat) (p : list Q) :
  length p = (5 + C)%nat ->
  exists ct, cell_loss p (replicate (5 + C) 0) = ok ct /\ terms_background p ct.
Proof.
  intros Hp.
  destruct p as [|a [|b [|c [|d [|o cs]]]]]; simpl in Hp; try lia.
  assert (Hcs : length cs = C) by lia.
  unfold cell_loss, channel, sub_bcast. simpl.
  rewrite !drop_0, length_replicate, Hcs, Nat.eqb_refl. simpl.
  eexists. split; [reflexivity|].
  unfold terms_background. simpl.
  rewrite zero_weighted_sq_sum. repeat split; ring.
Qed.

Lemma traverse_cell_loss_background (C : nat) (ps zs : list (list Q)) :
  Forall (fun p => length p = (5 + C)%nat) ps ->
  Forall (fun r => r = replicate (5 + C) 0) zs ->
  length ps = length zs ->
  exists terms,
    traverse (fun pt => cell_loss (fst pt) (snd pt)) (combine ps zs) = ok terms /\
    Forall2 terms_background ps terms.
Proof.
  intros Hps. revert zs. induction Hps as [|p ps Hp _ IH]; intros zs Hzs Hlen.
  - exists []. split; [reflexivity|constructor].
  - destruct zs as [|z zs]; [discriminate|].
    inversion Hzs as [|? ? -> Hzs']; subst.
    destruct (IH zs Hzs') as (terms & Ht & Hall); [simpl in Hlen; lia|].
    destruct (cell_loss_background C p Hp) as (ct & Hct & Hbg).
    cbn [combine traverse fst snd]. cbn [replicate Nat.add] in Hct. rewrite Hct. cbn [bind]. rewrite Ht.
    exists (ct :: terms). split; [reflexivity|]. by constructor.
Qed.

Lemma sum_terms_background (ps : list (list Q)) (terms : list cell_terms) :
  Forall2 terms_background ps terms ->
  sum_list (map box_term terms) == 0 /\
  sum_list (map obj_term terms) == 0 /\
  sum_list (map noobj_term terms) == sum_list (map (fun p => sq (nth 4 p 0)) ps) /\
  sum_list (map cls_term terms) == 0.
Proof.
  induction 1 as [|p ct ps terms (H1 & H2 & H3 & H4) _ (I1 & I2 & I3 & I4)]; simpl.
  - repeat split; reflexivity.
  - rewrite H1, H2, H3, H4, I1, I2, I3, I4. repeat split; ring.
Qed.

(** X14.  When no image of the batch has a ground-truth row, the loss of
    predictions of shape [(B, A, gh, gw, 5 + num_classes)] is the
    no-object weight times the sum of the squared predicted objectness
    over all positions; box and class predictions do not enter. *)
Theorem loss_background_only L s preds targets :
  shaped5 (sB s) (sA s) (sgh s) (sgw s) (5 + num_classes L) preds ->
  (forall b, (b < sB s)%nat -> targets !! b = Some []) ->
  exists loss,
    forward L s preds targets = ok loss /\
    loss == lambda_noobj L
            * sum_list (map (fun p => sq (nth 4 p 0)) (rows preds)).
Proof.
  intros Hshape Hempty. unfold forward, build_targets.
  rewrite assign_batch_skip
    by (intros b Hb; apply Hempty; apply in_seq in Hb; lia).
  rewrite bind_ok. unfold total_loss.
  destruct (rows_sized _ _ _ _ _ _ Hshape) as [Hlen Hrows].
  destruct (zeros5_rows (sB s) (sA s) (sgh s) (sgw s) (5 + num_classes L))
    as [Hzlen Hzrows].
  rewrite Hlen, Hzlen, Nat.eqb_refl.
  destruct (traverse_cell_loss_background (num_classes L)
              (rows preds) _ Hrows Hzrows) as (terms & -> & Hbg);
    [by rewrite Hlen, Hzlen|].
  rewrite bind_ok. eexists. split; [reflexivity|].
  destruct (sum_terms_background _ _ Hbg) as (-> & -> & -> & ->). ring.
Qed.

Lemma loss_background_only_witness :
  exists loss,
    forward (yolo_loss_default [(1, 1)]%Q 1) (Shape 1 1 1 2)
      [[[[ [1 # 2; 1 # 2; 1; 1; 3 # 4; 1 # 4];
           [0; 0; 0; 0; 1 # 4; 1] ]]]] [[]] = ok loss /\
    loss == (1 # 2) * ((3 # 4) * (3 # 4) + ((1 # 4) * (1 # 4) + 0)).
Proof.
  apply (loss_background_only (yolo_loss_default [(1, 1)]%Q 1) (Shape 1 1 1 2)
           [[[[ [1 # 2; 1 # 2; 1; 1; 3 # 4; 1 # 4];
                [0; 0; 0; 0; 1 # 4; 1] ]]]] [[]]).
  - unfold shaped5, sized. simpl. repeat (split || constructor).
  - intros [|b] Hb; simpl in *; [reflexivity|lia].
Defined.

End LossMore.

(* ===================================================================== *)
(** * More about non-maximum suppression *)
(* ===================================================================== *)

Module NMSMore.

Import Geometry Tensor NMS Inference GeometryFacts NMSFacts.

Lemma Forall2_in_r {A B} (R : A -> B -> Prop) (l : list A) (l' : list B) (y : B) :
  Forall2 R l l' -> In y l' -> exists x, In x l /\ R x y.
Proof.
  induction 1 as [|x y' l l' Hxy _ IH]; intros Hin; [destruct Hin|].
  destruct Hin as [<-|Hin].
  - exists x. split; [by left|exact Hxy].
  - destruct (IH Hin) as (x' & Hx' & Hr). exists x'. split; [by right|exact Hr].
Qed.


Lemma select_in {A} (f : A -> bool) (l : list A) (x : A) :
  In x (select (map f l) l) <-> In x l /\ f x = true.
Proof.
  induction l as [|a l IH]; simpl; [tauto|].
  destruct (f a) eqn:Ha; simpl; rewrite IH; split.
  - intros [<-|[? ?]]; auto.
  - intros [[<-|?] ?]; auto.
  - intros [? ?]; auto.
  - intros [[<-|?] ?]; [congruence|auto].
Qed.

Lemma insert_desc_in (c d : detection) (l : list detection) :
  In d (insert_desc c l) <-> d = c \/ In d l.
Proof.
  induction l as [|a l IH]; simpl; [intuition congruence|].
  destruct (Qlt_le_dec (d_score c) (d_score a)); simpl; [rewrite IH|];
    intuition congruence.
Qed.

Lemma sort_desc_in (d : detection) (l : list detection) :
  In d (sort_desc l) <-> In d l.
Proof.
  induction l as [|a l IH]; simpl; [tauto|].
  rewrite insert_desc_in, IH. intuition congruence.
Qed.

Lemma sublist_in {A} (l1 l2 : list A) (x : A) :
  sublist l1 l2 -> In x l1 -> In x l2.
Proof.
  intros Hs Hin. apply list_elem_of_In. eapply elem_of_sublist; [|exact Hs].
  by apply list_elem_of_In.
Qed.

Lemma to_corners_inv (c d : detection) :
  to_corners c = ok d ->
  d_score d = d_score c /\ d_class d = d_class c /\ length (d_box d) = 4.
Proof.
  unfold to_corners. intros H. apply bind_ok_inv in H as (b & Hb & [= <-]).
  simpl. repeat split.
  unfold xywh_to_xyxy in Hb.
  destruct (d_box c) as [|x [|y [|w [|h ?]]]]; try discriminate.
  by injection Hb as <-.
Qed.

(** The stages of the decoder behind a returned list. *)
Lemma nms_image_stages conf iou nc pred dets :
  nms_image conf iou nc pred = ok dets ->
  exists cands corners,
    traverse row_candidate (concat (concat pred)) = ok cands /\
    traverse to_corners
      (select (map (fun c => Qltb conf (d_score c)) cands) cands) = ok corners /\
    nms_loop iou (sort_desc corners) [] = ok dets.
Proof.
  unfold nms_image.
  destruct (Nat.ltb nc 5); [discriminate|].
  destruct (Nat.eqb nc 5); [discriminate|].
  intros H. apply bind_ok_inv in H as (cands & Hc & H).
  exists cands.
  destruct (select _ cands) as [|k kept].
  - injection H as <-. exists []. by repeat split.
  - apply bind_ok_inv in H as (corners & Hk & H). by exists corners.
Qed.

Lemma Qltb_true (a b : Q) : Qltb a b = true <-> (a < b)%Q.
Proof.
  unfold Qltb. destruct (Qlt_le_dec a b) as [H|H]; split; auto;
    [discriminate|]. intros H'. exfalso. by apply (Qlt_not_le _ _ H').
Qed.

(** Where the returned detections come from, and how they are related. *)
Lemma nms_image_elements conf iou nc pred dets :
  nms_image conf iou nc pred = ok dets ->
  Forall (fun d => (conf < d_score d)%Q /\ length (d_box d) = 4 /\
                   from_row conf (concat (concat pred)) d) dets /\
  ForallOrdPairs by_score_desc dets /\
  ForallOrdPairs (passed_mask iou) dets.
Proof.
  intros H. apply nms_image_stages in H as (cands & corners & Hc & Hk & H).
  apply nms_loop_kept in H as (kept & -> & Hsub & Hpairs). simpl.
  split; [|split; [|exact Hpairs]].
  - apply Forall_forall. intros d Hd. apply list_elem_of_In in Hd.
    apply (sublist_in _ _ _ Hsub) in Hd.
    apply (proj1 (sort_desc_in _ _)) in Hd.
    apply traverse_Forall2 in Hk, Hc.
    destruct (Forall2_in_r _ _ _ _ Hk Hd) as (c & Hcin & Hcd).
    apply (proj1 (select_in _ _ _)) in Hcin as [Hcin Hmask].
    apply (proj1 (Qltb_true _ _)) in Hmask.
    destruct (Forall2_in_r _ _ _ _ Hc Hcin) as (r & Hr & Hrc).
    destruct (to_corners_inv _ _ Hcd) as (Hs & _ & Hb).
    split; [by rewrite Hs|]. split; [exact Hb|].
    exists r, c. auto.
  - eapply pairs_of_sublist; [exact Hsub|apply sort_desc_sorted].
Qed.

(** X15.  Images are filtered one by one: the output has one list per
    image, in the order of the batch, and within each list a later
    detection passed the mask of every earlier one, that is, the IoU
    [bbox_iou] computed for the pair was below the IoU threshold. *)
Theorem nms_batch_separated conf iou nc prediction out :
  non_max_suppression conf iou nc prediction = ok out ->
  length out = length prediction /\
  forall b pred dets,
    prediction !! b = Some pred -> out !! b = Some dets ->
    nms_image conf iou nc pred = ok dets /\
    forall i j di dj,
      i < j -> dets !! i = Some di -> dets !! j = Some dj ->
      passed_mask iou di dj.
Proof.
  unfold non_max_suppression. intros H. split; [by apply traverse_length in H|].
  intros b pred dets Hp Ho. apply traverse_Forall2 in H.
  pose proof (Forall2_lookup_lr _ _ _ _ _ _ H Hp Ho) as Hb. cbv beta in Hb.
  split; [exact Hb|]. by apply nms_output_passed_mask with conf nc pred.
Qed.

Lemma nms_batch_separated_witness :
  exists d1 d2 d3,
    non_max_suppression (1 # 2) (1 # 2) 6
      [ [[[ [1; 1; 1; 1; 1; 6 # 10]; [5; 5; 1; 1; 1; 9 # 10] ]]];
        [[[ [2; 2; 1; 1; 1; 7 # 10]; [3; 3; 1; 1; 0; 1] ]]] ]%Q
    = ok [[d1; d2]; [d3]] /\
    passed_mask (1 # 2) d1 d2.
Proof.
  let r := eval vm_compute in
      (non_max_suppression (1 # 2) (1 # 2) 6
         [ [[[ [1; 1; 1; 1; 1; 6 # 10]; [5; 5; 1; 1; 1; 9 # 10] ]]];
           [[[ [2; 2; 1; 1; 1; 7 # 10]; [3; 3; 1; 1; 0; 1] ]]] ]%Q) in
  match r with
  | inr [[?d1; ?d2]; [?d3]] =>
      exists d1, d2, d3;
      assert (H : non_max_suppression (1 # 2) (1 # 2) 6
                    [ [[[ [1; 1; 1; 1; 1; 6 # 10]; [5; 5; 1; 1; 1; 9 # 10] ]]];
                      [[[ [2; 2; 1; 1; 1; 7 # 10]; [3; 3; 1; 1; 0; 1] ]]] ]%Q
                  = ok [[d1; d2]; [d3]]) by (vm_compute; reflexivity);
      split; [exact H|];
      destruct (nms_batch_separated _ _ _ _ _ H) as [_ Hb];
      apply (proj2 (Hb 0 _ [d1; d2] eq_refl eq_refl) 0 1 d1 d2);
        [lia | reflexivity | reflexivity]
  end.
Defined.

(** X16.  Every detection returned for an image scores above the
    confidence threshold and is the candidate of some row of the
    prediction tensor, its box taken from center form to corner form. *)
Theorem nms_detections_from_rows conf iou nc pred dets :
  nms_image conf iou nc pred = ok dets ->
  forall d, In d dets ->
    (conf < d_score d)%Q /\
    exists r c,
      In r (concat (concat pred)) /\ row_candidate r = ok c /\
      to_corners c = ok d.
Proof.
  intros H d Hd.
  destruct (nms_image_elements _ _ _ _ _ H) as (Hall & _ & _).
  apply list_elem_of_In in Hd.
  destruct (proj1 (Forall_forall _ _) Hall d Hd)
    as (Hscore & _ & r & c & Hr & Hc & _ & Hcd).
  split; [exact Hscore|]. by exists r, c.
Qed.

Lemma nms_detections_from_rows_witness :
  exists d1 d2,
    nms_image (1 # 2) (1 # 2) 6
      [[[ [1; 1; 1; 1; 1; 6 # 10]; [5; 5; 1; 1; 1; 9 # 10] ]]]%Q
    = ok [d1; d2] /\
    (1 # 2 < d_score d2)%Q.
Proof.
  let r := eval vm_compute in
      (nms_image (1 # 2) (1 # 2) 6
         [[[ [1; 1; 1; 1; 1; 6 # 10]; [5; 5; 1; 1; 1; 9 # 10] ]]]%Q) in
  match r with
  | inr [?d1; ?d2] =>
      exists d1, d2;
      assert (H : nms_image (1 # 2) (1 # 2) 6
                    [[[ [1; 1; 1; 1; 1; 6 # 10]; [5; 5; 1; 1; 1; 9 # 10] ]]]%Q
                  = ok [d1; d2]) by (vm_compute; reflexivity);
      split; [exact H|];
      apply (nms_detections_from_rows _ _ _ _ _ H d2); right; left; reflexivity
  end.
Defined.

(** ** The first detection *)




(** ** Thresholds at the ends of the IoU range *)

(** X18.  With an IoU threshold of 0 or less the mask [ious <
    iou_threshold] never holds, and at most one detection is returned. *)
Theorem nms_nonpositive_iou_threshold conf iou nc pred dets :
  (iou <= 0)%Q ->
  nms_image conf iou nc pred = ok dets -> length dets <= 1.
Proof.
  intros Hiou H.
  destruct (nms_image_elements _ _ _ _ _ H) as (Hall & _ & Hpairs).
  destruct dets as [|d0 [|d1 dets]]; simpl; try lia.
  exfalso.
  inversion Hpairs as [|? ? Hd0 _]; subst.
  inversion Hd0 as [|? ? (v & Hv & Hlt) _]; subst.
  inversion Hall as [|? ? (_ & Hb0 & _) Hall']; subst.
  inversion Hall' as [|? ? (_ & Hb1 & _) _]; subst.
  destruct (GeometryMore.bbox_iou_in_unit eps_default _ _ v eq_refl Hb0 Hb1 Hv)
    as [H0 _].
  apply (Qlt_not_le _ _ Hlt). eapply Qle_trans; eassumption.
Qed.

Lemma nms_nonpositive_iou_threshold_witness :
  exists dets,
    nms_image (1 # 2) 0 6
      [[[ [1; 1; 1; 1; 1; 6 # 10]; [5; 5; 1; 1; 1; 9 # 10] ]]]%Q
    = ok dets /\ length dets <= 1.
Proof.
  let r := eval vm_compute in
      (nms_image (1 # 2) 0 6
         [[[ [1; 1; 1; 1; 1; 6 # 10]; [5; 5; 1; 1; 1; 9 # 10] ]]]%Q) in
  match r with
  | inr ?dets =>
      exists dets;
      assert (H : nms_image (1 # 2) 0 6
                    [[[ [1; 1; 1; 1; 1; 6 # 10]; [5; 5; 1; 1; 1; 9 # 10] ]]]%Q
                  = ok dets) by (vm_compute; reflexivity);
      split; [exact H|];
      apply (nms_nonpositive_iou_threshold (1 # 2) 0 6
               [[[ [1; 1; 1; 1; 1; 6 # 10]; [5; 5; 1; 1; 1; 9 # 10] ]]]%Q dets);
        [discriminate | exact H]
  end.
Defined.







(** ** The class of a candidate *)

Lemma max_from_snd (l : list Q) (bi : nat) (bv : Q) (i : nat) :
  snd (max_from bi bv i l) = argmax_from bi bv i l.
Proof.
  revert bi bv i. induction l as [|x l IH]; intros bi bv i; simpl; [reflexivity|].
  destruct (Qlt_le_dec bv x); apply IH.
Qed.

Lemma max_from_fst (l pre : list Q) (bi : nat) (bv : Q) :
  pre !! bi = Some bv ->
  (pre ++ l) !! snd (max_from bi bv (length pre) l)
  = Some (fst (max_from bi bv (length pre) l)).
Proof.
  revert pre bi bv. induction l as [|x l IH]; intros pre bi bv Hbi; simpl.
  - rewrite app_nil_r. exact Hbi.
  - destruct (Qlt_le_dec bv x).
    + specialize (IH (pre ++ [x]) (length pre) x).
      rewrite length_app in IH. simpl in IH.
      replace (length pre + 1) with (S (length pre)) in IH by lia.
      rewrite <- app_assoc in IH. simpl in IH. apply IH.
      rewrite lookup_app_r by lia. by rewrite Nat.sub_diag.
    + specialize (IH (pre ++ [x]) bi bv).
      rewrite length_app in IH. simpl in IH.
      replace (length pre + 1) with (S (length pre)) in IH by lia.
      rewrite <- app_assoc in IH. simpl in IH. apply IH.
      by apply lookup_app_l_Some.
Qed.

(** X20.  The candidate of a row has the row's first four entries as its
    box, the index of the first largest class score as its class, and the
    objectness times that largest class score as its score. *)
Theorem row_candidate_first_best_class (r : list Q) (c : detection) :
  row_candidate r = ok c ->
  exists obj m,
    r !! 4 = Some obj /\
    drop 5 r !! d_class c = Some m /\
    d_score c = (obj * m)%Q /\
    d_box c = take 4 r /\
    (forall k u, drop 5 r !! k = Some u -> (u <= m)%Q) /\
    (forall k u, k < d_class c -> drop 5 r !! k = Some u -> (u < m)%Q).
Proof.
  unfold row_candidate, channel, max_with_index. intros H.
  destruct (r !! 4) as [obj|]; [|discriminate]. simpl bind in H.
  destruct (drop 5 r) as [|x l]; [discriminate|]. simpl bind in H.
  injection H as <-. simpl.
  exists obj, (fst (max_from 0 x 1 l)).
  pose proof (max_from_fst l [x] 0 x eq_refl) as Hfst.
  pose proof (AssignMore.argmax_from_first_max l [x] 0 x eq_refl) as Hmax.
  simpl in Hfst, Hmax. rewrite <- max_from_snd in Hmax.
  destruct Hmax as (v & Hv & Hall & Hbefore).
  - intros [|k] u Hk; simpl in Hk; [|discriminate]. injection Hk as <-.
    apply Qle_refl.
  - intros k u Hk. lia.
  - rewrite Hfst in Hv. injection Hv as <-.
    repeat split; auto.
Qed.

Lemma row_candidate_first_best_class_witness :
  exists obj m,
    [0; 0; 1; 1; 1 # 2; 1 # 4; 3 # 4; 3 # 4]%Q !! 4 = Some obj /\
    drop 5 [0; 0; 1; 1; 1 # 2; 1 # 4; 3 # 4; 3 # 4]%Q !! 1 = Some m.
Proof.
  destruct (row_candidate_first_best_class
              [0; 0; 1; 1; 1 # 2; 1 # 4; 3 # 4; 3 # 4]%Q
              (Det [0; 0; 1; 1]%Q ((1 # 2) * (3 # 4)) 1) eq_refl)
    as (obj & m & Hobj & Hm & _).
  exists obj, m. split; [exact Hobj|exact Hm].
Defined.

(** ** Inference *)

(** X21.  On the network output of a one-image batch, [inference]
    returns the detections of that image for the confidence threshold
    0.4 and the IoU threshold 0.5: each scores above 0.4 and comes from
    a row of the output, no detection scores above an earlier one, and
    each passed the mask of every earlier one. *)
Theorem inference_single_image nc p dets :
  inference nc [p] = ok dets ->
  nms_image (2 # 5) (1 # 2) nc p = ok dets /\
  Forall (fun d => (2 # 5 < d_score d)%Q /\ from_row (2 # 5) (concat (concat p)) d)
    dets /\
  ForallOrdPairs by_score_desc dets /\
  ForallOrdPairs (passed_mask (1 # 2)) dets.
Proof.
  unfold inference, non_max_suppression. simpl traverse. intros H.
  destruct (nms_image (2 # 5) (1 # 2) nc p) as [e|ds] eqn:E; [discriminate|].
  simpl in H. injection H as ->.
  split; [reflexivity|].
  destruct (nms_image_elements _ _ _ _ _ E) as (Hall & Hdesc & Hmask).
  split; [|by split].
  eapply Forall_impl; [exact Hall|]. intros d (? & _ & ?). by split.
Qed.

Lemma inference_single_image_witness :
  exists dets,
    inference 6 [[[[ [1; 1; 1; 1; 1; 6 # 10]; [5; 5; 1; 1; 1; 3 # 10] ]]]]%Q
      = ok dets /\
    nms_image (2 # 5) (1 # 2) 6
      [[[ [1; 1; 1; 1; 1; 6 # 10]; [5; 5; 1; 1; 1; 3 # 10] ]]]%Q = ok dets.
Proof.
  let r := eval vm_compute in
      (inference 6
         [[[[ [1; 1; 1; 1; 1; 6 # 10]; [5; 5; 1; 1; 1; 3 # 10] ]]]]%Q) in
  match r with
  | inr ?dets =>
      exists dets;
      assert (H : inference 6
                    [[[[ [1; 1; 1; 1; 1; 6 # 10]; [5; 5; 1; 1; 1; 3 # 10] ]]]]%Q
                  = ok dets) by (vm_compute; reflexivity);
      split; [exact H|];
      exact (proj1 (inference_single_image _ _ _ H))
  end.
Defined.

End NMSMore.

(* ===================================================================== *)
(** * The network output, the loss and the decoder together *)
(* ===================================================================== *)

Module NetworkFacts.

Import Geometry Tensor Loss NMS Network Validity.
Import TensorFacts AssignFacts LossFacts NMSFacts.

(** The shape [(B, ch, gh, gw)] of a head output. *)
Lemma permute_last_shaped C gh gw x :
  sized gh (sized gw (fun r : list Q => length r = C)) (permute_last C gh gw x).
Proof.
  unfold permute_last, sized.
  split; [by rewrite length_fmap, length_seq|].
  apply Forall_fmap, Forall_forall. intros j _. simpl.
  split; [by rewrite length_fmap, length_seq|].
  apply Forall_fmap, Forall_forall. intros i _. simpl.
  by rewrite length_fmap, length_seq.
Qed.

Lemma permute_last_lookup C gh gw x j i c :
  j < gh -> i < gw -> c < C ->
  exists m r,
    permute_last C gh gw x !! j = Some m /\ m !! i = Some r /\
    r !! c = Some (entry3 x c j i).
Proof.
  intros Hj Hi Hc. unfold permute_last.
  eexists. eexists.
  rewrite list_lookup_fmap, (lookup_seq_lt 0 gh j Hj). simpl.
  split; [reflexivity|].
  rewrite list_lookup_fmap, (lookup_seq_lt 0 gw i Hi). simpl.
  split; [reflexivity|].
  rewrite list_lookup_fmap, (lookup_seq_lt 0 C c Hc). reflexivity.
Qed.

(** X22.  On a head output of shape [(B, A * C, gh, gw)], [YOLO.forward]
    returns a tensor of shape [(B, A, gh, gw, C)] whose entry
    [(b, a, j, i, c)] is the head's entry [(b, a * C + c, j, i)]: the
    channels of one anchor are consecutive, anchor after anchor. *)
Theorem yolo_forward_layout A C gh gw (head_out : list (list (list (list Q)))) :
  Forall (sized (A * C) (sized gh (sized gw (fun _ : Q => True)))) head_out ->
  exists pred,
    yolo_forward A C (A * C) gh gw head_out = ok pred /\
    shaped5 (length head_out) A gh gw C pred /\
    forall b a j i c x m r v,
      a < A -> c < C ->
      head_out !! b = Some x -> x !! (a * C + c) = Some m ->
      m !! j = Some r -> r !! i = Some v ->
      get5 pred b a j i c = Some v.
Proof.
  intros Hshape. unfold yolo_forward.
  replace (length head_out * (A * C) * gh * gw)
    with (length head_out * A * C * gh * gw) by lia.
  rewrite Nat.eqb_refl. eexists. split; [reflexivity|]. split.
  - unfold shaped5, sized. split; [by rewrite length_fmap|].
    apply Forall_fmap, Forall_forall. intros x _. simpl.
    split; [unfold view_anchors; by rewrite !length_fmap, length_seq|].
    apply Forall_fmap, Forall_forall. intros y _. apply permute_last_shaped.
  - intros b a j i c x m r v Ha Hc Hx Hm Hr Hv.
    pose proof (Forall_lookup_1 _ _ _ _ Hshape Hx) as [_ Hxs].
    pose proof (Forall_lookup_1 _ _ _ _ Hxs Hm) as [Hmlen Hms].
    pose proof (Forall_lookup_1 _ _ _ _ Hms Hr) as [Hrlen _].
    pose proof (lookup_lt_Some _ _ _ Hr) as Hj. rewrite Hmlen in Hj.
    pose proof (lookup_lt_Some _ _ _ Hv) as Hi. rewrite Hrlen in Hi.
    unfold get5. rewrite list_lookup_fmap, Hx. simpl.
    unfold view_anchors.
    rewrite !list_lookup_fmap, (lookup_seq_lt 0 A a Ha). simpl.
    destruct (permute_last_lookup C gh gw (take C (drop (a * C) x)) j i c Hj Hi Hc)
      as (m' & r' & -> & -> & ->).
    f_equal. unfold entry3.
    rewrite (lookup_take_lt _ _ _ Hc), lookup_drop, Hm, Hr, Hv. reflexivity.
Qed.

Lemma yolo_forward_layout_witness :
  exists pred,
    yolo_forward 2 2 4 1 1 [[ [[1%Q]]; [[2%Q]]; [[3%Q]]; [[4%Q]] ]] = ok pred /\
    get5 pred 0 1 0 0 1 = Some 4%Q.
Proof.
  destruct (yolo_forward_layout 2 2 1 1 [[ [[1%Q]]; [[2%Q]]; [[3%Q]]; [[4%Q]] ]])
    as (pred & Hp & _ & Hget).
  - unfold sized. repeat (split || constructor).
  - exists pred. split; [exact Hp|].
    apply (Hget 0 1 0 0 1 [ [[1%Q]]; [[2%Q]]; [[3%Q]]; [[4%Q]] ] [[4%Q]] [4%Q]);
      (lia || reflexivity).
Defined.

(** ** The loss on predictions of the right shape *)

Lemma cell_loss_total (C : nat) (p r : list Q) :
  length p = 5 + C -> length r = 5 + C -> exists ct, cell_loss p r = ok ct.
Proof.
  intros Hp Hr.
  destruct p as [|p0 [|p1 [|p2 [|p3 [|p4 ps]]]]]; simpl in Hp; try lia.
  destruct r as [|r0 [|r1 [|r2 [|r3 [|r4 rs]]]]]; simpl in Hr; try lia.
  unfold cell_loss, channel, sub_bcast. simpl.
  rewrite !drop_0.
  replace (length ps) with (length rs) by lia. rewrite Nat.eqb_refl.
  simpl. by eexists.
Qed.

Lemma traverse_cell_loss_total (C : nat) (ps rs : list (list Q)) :
  Forall (fun p => length p = 5 + C) ps ->
  Forall (fun r => length r = 5 + C) rs ->
  exists terms,
    traverse (fun pt => cell_loss (fst pt) (snd pt)) (combine ps rs) = ok terms.
Proof.
  intros Hps. revert rs. induction Hps as [|p ps Hp _ IH]; intros rs Hrs.
  - by exists [].
  - destruct Hrs as [|r rs Hr Hrs]; [by exists []|].
    destruct (IH rs Hrs) as (terms & Ht).
    destruct (cell_loss_total C p r Hp Hr) as (ct & Hct).
    cbn [combine traverse fst snd]. rewrite Hct. cbn [bind]. rewrite Ht.
    by eexists.
Qed.

(** X23.  On predictions of shape [(B, A, gh, gw, 5 + num_classes)] the
    loss is returned exactly when the target tensor can be built: the
    loss terms themselves never fail. *)
Theorem loss_returned_iff L s preds targets :
  shaped5 (sB s) (sA s) (sgh s) (sgw s) (5 + num_classes L) preds ->
  (exists loss, forward L s preds targets = ok loss) <->
  (exists t, build_targets L s targets = ok t).
Proof.
  intros Hp. unfold forward. split.
  - intros (loss & H). apply bind_ok_inv in H as (t & Ht & _). by exists t.
  - intros (t & Ht). rewrite Ht, LossMore.bind_ok.
    assert (St : shaped5 (sB s) (sA s) (sgh s) (sgw s) (5 + num_classes L) t).
    { unfold build_targets in Ht.
      eapply AssignMore.assign_batch_shaped; [apply zeros5_shaped|exact Ht]. }
    destruct (LossMore.rows_sized _ _ _ _ _ _ Hp) as [Hplen Hprows].
    destruct (LossMore.rows_sized _ _ _ _ _ _ St) as [Htlen Htrows].
    unfold total_loss. rewrite Hplen, Htlen, Nat.eqb_refl.
    destruct (traverse_cell_loss_total _ _ _ Hprows Htrows) as (terms & ->).
    rewrite LossMore.bind_ok. by eexists.
Qed.

Lemma loss_returned_iff_witness :
  (exists loss,
     forward (yolo_loss_default [(1, 1)]%Q 1) (Shape 1 1 1 2)
       [[[[ [1 # 2; 1 # 2; 1; 1; 3 # 4; 1 # 4];
            [0; 0; 0; 0; 1 # 4; 1] ]]]]%Q
       [[GT 0 (1 # 4) (1 # 2) (1 # 2) (1 # 2)]] = ok loss) <->
  (exists t,
     build_targets (yolo_loss_default [(1, 1)]%Q 1) (Shape 1 1 1 2)
       [[GT 0 (1 # 4) (1 # 2) (1 # 2) (1 # 2)]] = ok t).
Proof.
  apply (loss_returned_iff (yolo_loss_default [(1, 1)]%Q 1) (Shape 1 1 1 2)).
  unfold shaped5, sized. simpl. repeat (split || constructor).
Defined.

(** ** From the network output to the detections *)

Lemma yolo_forward_shaped A C gh gw (head_out : list (list (list (list Q)))) :
  exists pred,
    yolo_forward A C (A * C) gh gw head_out = ok pred /\
    shaped5 (length head_out) A gh gw C pred.
Proof.
  unfold yolo_forward.
  replace (length head_out * (A * C) * gh * gw)
    with (length head_out * A * C * gh * gw) by lia.
  rewrite Nat.eqb_refl. eexists. split; [reflexivity|].
  unfold shaped5, sized. split; [by rewrite length_fmap|].
  apply Forall_fmap, Forall_forall. intros x _. simpl.
  split; [unfold view_anchors; by rewrite !length_fmap, length_seq|].
  apply Forall_fmap, Forall_forall. intros y _. apply permute_last_shaped.
Qed.

(** X24.  With at least one class, the tensor [YOLO.forward] makes of a
    head output of [A * (5 + K)] channels is accepted by
    [non_max_suppression] for any thresholds: it returns one detection
    list per image. *)
Theorem forward_then_nms_returns A K gh gw conf iou
    (head_out : list (list (list (list Q)))) :
  1 <= K ->
  exists pred out,
    yolo_forward A (5 + K) (A * (5 + K)) gh gw head_out = ok pred /\
    non_max_suppression conf iou (5 + K) pred = ok out /\
    length out = length head_out.
Proof.
  intros HK.
  destruct (yolo_forward_shaped A (5 + K) gh gw head_out) as (pred & Hp & [Hlen Hs]).
  destruct (traverse_exists (nms_image conf iou (5 + K)) (fun _ => True) pred)
    as (out & Hout & _).
  { eapply Forall_impl; [exact Hs|]. intros p Hpshape.
    destruct (nms_image_total conf iou (5 + K) p) as (dets & Hd); [lia| |by exists dets].
    by destruct (LossMore.concat_sized _ _ _ _
                   (LossMore.concat_sized _ _ _ _ Hpshape)). }
  exists pred, out. split; [exact Hp|]. split; [exact Hout|].
  apply traverse_length in Hout. lia.
Qed.

Lemma forward_then_nms_returns_witness :
  exists pred out,
    yolo_forward 1 6 6 1 1
      [[ [[1%Q]]; [[1%Q]]; [[1%Q]]; [[1%Q]]; [[1%Q]]; [[1%Q]] ]] = ok pred /\
    non_max_suppression (1 # 2) (1 # 2) 6 pred = ok out /\
    length out = 1.
Proof.
  apply (forward_then_nms_returns 1 1 1 1 (1 # 2) (1 # 2)
           [[ [[1%Q]]; [[1%Q]]; [[1%Q]]; [[1%Q]]; [[1%Q]]; [[1%Q]] ]]).
  lia.
Defined.

End NetworkFacts.

(* ===================================================================== *)
(** * Facts about label files *)
(* ===================================================================== *)

Module DatasetFacts.

Import Loss Dataset.

Section Labels.

Context {char : Type}.
Variable isspace : char -> bool.
Variable float_of : list char -> option Q.

Lemma split_from_rstrip (s cur : list char) :
  split_from isspace cur (rstrip isspace s) = split_from isspace cur s.
Proof.
  revert cur. induction s as [|c s IH]; intros cur; [reflexivity|].
  simpl. destruct (rstrip isspace s) as [|r0 r] eqn:Er.
  - destruct (isspace c) eqn:Ec; simpl.
    + rewrite <- (IH []). simpl. destruct cur; reflexivity.
    + rewrite Ec. rewrite <- (IH (cur ++ [c])). reflexivity.
  - simpl. destruct (isspace c); [|apply IH].
    rewrite <- (IH []). reflexivity.
Qed.

Lemma split_lstrip (s : list char) :
  split isspace (lstrip isspace s) = split isspace s.
Proof.
  unfold split. induction s as [|c s IH]; [reflexivity|].
  simpl. destruct (isspace c) eqn:Ec; [exact IH|].
  simpl. by rewrite Ec.
Qed.

(** X25.  Stripping a line before splitting it changes nothing:
    [line.strip().split()] is [line.split()]. *)
Theorem split_strip (s : list char) :
  split isspace (strip isspace s) = split isspace s.
Proof.
  unfold strip, split. rewrite split_from_rstrip. apply split_lstrip.
Qed.

Lemma split_from_clean (s cur : list char) :
  Forall (fun c => isspace c = false) cur ->
  Forall (clean isspace) (split_from isspace cur s).
Proof.
  revert cur. induction s as [|c s IH]; intros cur Hcur; simpl.
  - destruct cur as [|c0 cur]; [constructor|].
    constructor; [split; [discriminate|assumption]|constructor].
  - destruct (isspace c) eqn:Ec.
    + destruct cur as [|c0 cur]; [by apply IH|].
      constructor; [split; [discriminate|assumption]|by apply IH].
    + apply IH. apply Forall_app. split; [assumption|by repeat constructor].
Qed.

(** X26.  Every field [split] returns is non-empty and free of
    whitespace. *)
Theorem split_fields_clean (s : list char) :
  Forall (clean isspace) (split isspace s).
Proof. unfold split. apply split_from_clean. constructor. Qed.

Lemma split_from_run (t s cur : list char) :
  Forall (fun c => isspace c = false) t ->
  split_from isspace cur (t ++ s) = split_from isspace (cur ++ t) s.
Proof.
  intros Ht. revert cur. induction Ht as [|c t Hc _ IH]; intros cur; simpl.
  - by rewrite app_nil_r.
  - rewrite Hc, IH, <- app_assoc. reflexivity.
Qed.

(** X27.  Splitting undoes joining: fields that are non-empty and free
    of whitespace, joined by a whitespace character, split back into the
    same fields. *)
Theorem split_join (sep : char) (parts : list (list char)) :
  isspace sep = true -> Forall (clean isspace) parts ->
  split isspace (join sep parts) = parts.
Proof.
  intros Hsep Hparts. unfold split.
  induction Hparts as [|p ps [Hne Hp] Hps IH]; [reflexivity|].
  destruct ps as [|q ps].
  - simpl. pose proof (split_from_run p [] [] Hp) as E.
    rewrite app_nil_r in E. rewrite E. simpl.
    destruct p; [done|reflexivity].
  - change (join sep (p :: q :: ps)) with (p ++ sep :: join sep (q :: ps)).
    rewrite split_from_run by assumption. cbn [app split_from].
    rewrite Hsep. destruct p; [done|]. by rewrite IH.
Qed.

(** X28.  A label file parses exactly when [float] accepts all five
    fields of every line that has five fields, and the rows are then the
    floats of those lines, in order; lines with another number of
    fields, blank lines included, leave no row. *)
Theorem parse_labels_rows (lines : list (list char)) (gts : list gt_box) :
  parse_labels isspace float_of lines = Some gts <->
  Forall2 (row_of_line isspace float_of)
    (List.filter (fun l => Nat.eqb (length (split isspace (strip isspace l))) 5)
       lines)
    gts.
Proof.
  revert gts. induction lines as [|line lines IH]; intros gts; simpl.
  - split; [intros [= <-]; constructor|]. intros H. by inversion H.
  - unfold parse_fields.
    destruct (split isspace (strip isspace line))
      as [|c [|x [|y [|w [|h [|e parts]]]]]] eqn:Es; simpl; try apply IH.
    destruct (float_of c) as [vc|] eqn:Ec.
    2: { split; [discriminate|]. intros H. inversion H as [|? ? ? ? Hrow _]; subst.
         destruct Hrow as (c' & x' & y' & w' & h' & E & Fc & _).
         rewrite Es in E. injection E as <- <- <- <- <-. congruence. }
    destruct (float_of x) as [vx|] eqn:Ex.
    2: { split; [discriminate|]. intros H. inversion H as [|? ? ? ? Hrow _]; subst.
         destruct Hrow as (c' & x' & y' & w' & h' & E & _ & Fx & _).
         rewrite Es in E. injection E as <- <- <- <- <-. congruence. }
    destruct (float_of y) as [vy|] eqn:Ey.
    2: { split; [discriminate|]. intros H. inversion H as [|? ? ? ? Hrow _]; subst.
         destruct Hrow as (c' & x' & y' & w' & h' & E & _ & _ & Fy & _).
         rewrite Es in E. injection E as <- <- <- <- <-. congruence. }
    destruct (float_of w) as [vw|] eqn:Ew.
    2: { split; [discriminate|]. intros H. inversion H as [|? ? ? ? Hrow _]; subst.
         destruct Hrow as (c' & x' & y' & w' & h' & E & _ & _ & _ & Fw & _).
         rewrite Es in E. injection E as <- <- <- <- <-. congruence. }
    destruct (float_of h) as [vh|] eqn:Eh.
    2: { split; [discriminate|]. intros H. inversion H as [|? ? ? ? Hrow _]; subst.
         destruct Hrow as (c' & x' & y' & w' & h' & E & _ & _ & _ & _ & Fh).
         rewrite Es in E. injection E as <- <- <- <- <-. congruence. }
    split.
    + destruct (parse_labels isspace float_of lines) as [gts'|]; [|discriminate].
      intros [= <-]. constructor; [|by apply IH].
      exists c, x, y, w, h. simpl. by repeat split.
    + intros H. inversion H as [|? gt ? gts' Hrow Hrest]; subst.
      apply IH in Hrest. rewrite Hrest.
      destruct Hrow as (c' & x' & y' & w' & h' & E & Fc & Fx & Fy & Fw & Fh).
      rewrite Es in E. injection E as <- <- <- <- <-.
      destruct gt as [gc gx gy gw gh]. simpl in *. congruence.
Qed.

End Labels.

Lemma split_join_witness :
  split (Nat.eqb 0) (join 0 [[1; 2]; [3]]) = [[1; 2]; [3]].
Proof.
  apply (split_join (Nat.eqb 0) 0 [[1; 2]; [3]]).
  - reflexivity.
  - repeat constructor; discriminate.
Defined.

End DatasetFacts.
